(** * Randomised audio augmentations: [imageProcessing/functions.py]

    A shallow embedding of the transform classes of
    [src/imageProcessing/functions.py] ([AudioTransform], [Compose], [OneOf],
    [GaussianNoiseSNR], [PinkNoiseSNR], [PitchShift], [TimeShift]) and of the
    handful of numpy operations they call.

    Modelling choices.
    - A Python [float] and an array sample are real numbers ([R]): arithmetic
      is exact, rounding to the array's dtype is an uninterpreted function.
      The one operation whose result can leave the range of the dtype on
      ordinary samples, the square of line 52, is a parameter ([square_in]).
    - A numpy array is an object on a heap; a transform receives and returns
      a reference.  [np.roll], [astype] and arithmetic allocate, a slice
      assignment writes in place.
    - The process-wide random source is a state threaded through every call.
      What numpy, colorednoise and librosa compute is taken as a parameter
      ([Externals]) with the documented contracts ([ExternalsOk]), the
      exceptions they raise included: [randint] outside [int64] or on an
      empty range, [powerlaw_psd_gaussian] on fewer than two samples.
    - A Python exception is an [exn] result; the state at the raise is kept. *)

From Stdlib Require Import String Bool Arith ZArith Reals Lra Lia List Permutation.
Import ListNotations.

(** ** Data *)

(** The exceptions the code can raise.  [BadReference] is the model's own:
    a reference that is not on the heap, which Python cannot construct. *)
Inductive exn : Type :=
| ValueError
| AssertionError
| IndexError
| ZeroDivisionError
| ParameterError
| BadReference.

(** The spec's waveform is a floating-point sequence. *)
Inductive dtype : Type := Float16 | Float32 | Float64.

Record ndarray : Type := mk_ndarray { arr_dtype : dtype; arr_data : list R }.

Definition loc := nat.

(** ** External collaborators *)

(** numpy's random source, colorednoise's generator, librosa's pitch shifter
    and the rounding of [astype]. *)
Class Externals : Type := {
  rng : Type;
  (** [np.random.rand()] *)
  random_rand : rng -> R * rng;
  (** [np.random.randint(low, high)] *)
  random_randint : Z -> Z -> rng -> (exn + Z) * rng;
  (** [np.random.choice(n)] for an integer [n] *)
  random_choice : nat -> rng -> (exn + nat) * rng;
  (** [np.random.randn(n)] *)
  random_randn : nat -> rng -> list R * rng;
  (** [cn.powerlaw_psd_gaussian(exponent, n)], which draws from numpy's
      source and can raise *)
  powerlaw_psd_gaussian : R -> nat -> rng -> (exn + list R) * rng;
  (** [librosa.effects.pitch_shift(y, sr = sr, n_steps = n_steps)] *)
  pitch_shift : ndarray -> Z -> Z -> exn + ndarray;
  (** the value a real number takes when stored with a dtype *)
  round_to : dtype -> R -> R;
  (** [v ** 2] as an array of the dtype computes it.  It is [v ^ 2] while
      that is in the range of the dtype and 0 when it underflows; when it
      overflows numpy has [inf], which a real number cannot be: the value is
      then left open, and nothing below is stated of it. *)
  square_in : dtype -> R -> R
}.

(** The documented contracts of the collaborators. *)
Class ExternalsOk (E : Externals) : Prop := {
  rand_range : forall g, (0 <= fst (random_rand g) < 1)%R;
  (** numpy draws an [int64]: it refuses a bound outside that type as it
      refuses an empty range. *)
  randint_range : forall low high g,
    if ((low <? high) && (- 2 ^ 63 <=? low) && (high <=? 2 ^ 63))%Z
    then exists v, fst (random_randint low high g) = inr v /\ (low <= v < high)%Z
    else fst (random_randint low high g) = inl ValueError;
  choice_range : forall n g,
    match n with
    | O => fst (random_choice n g) = inl ValueError
    | S _ => exists i, fst (random_choice n g) = inr i /\ i < n
    end;
  randn_length : forall n g, length (fst (random_randn n g)) = n;
  (** colorednoise divides by the number of samples and then indexes the
      frequencies above zero, of which one sample has none. *)
  powerlaw_outcome : forall n g,
    match n with
    | 0 => fst (powerlaw_psd_gaussian 1 n g) = inl ZeroDivisionError
    | 1 => fst (powerlaw_psd_gaussian 1 n g) = inl IndexError
    | _ => exists noise,
             fst (powerlaw_psd_gaussian 1 n g) = inr noise /\ length noise = n
    end;
  square_in_zero : forall d, square_in d 0 = 0%R;
  pitch_shift_shape : forall a sr n b,
    pitch_shift a sr n = inr b ->
    length (arr_data b) = length (arr_data a) /\ arr_dtype b = arr_dtype a
}.

(** ** numpy on plain sequences *)

Module Numpy.

(** [np.roll(a, shift)] for a one-dimensional array, as numpy writes it:
    [offset = shift % (n or 1)]; when [offset] is non-zero
    [result[offset:] = a[:-offset]] and [result[:offset] = a[-offset:]],
    otherwise the result is a copy. *)
Definition roll {A : Type} (a : list A) (shift : Z) : list A :=
  let n := length a in
  let offset := Z.to_nat (shift mod (if (n =? 0)%nat then 1 else Z.of_nat n))%Z in
  if offset =? 0 then a
  else skipn (n - offset) a ++ firstn (n - offset) a.

(** A bound of a Python slice with step 1 on a sequence of length [n]:
    a negative bound counts from the end, and both are clipped to [0, n]. *)
Definition slice_bound (n : nat) (i : Z) : nat :=
  Z.to_nat (if (i <? 0)%Z then Z.max (Z.of_nat n + i) 0 else Z.min i (Z.of_nat n)).

(** [slice(start, stop).indices(n)], [None] being an omitted bound. *)
Definition slice_indices (n : nat) (start stop : option Z) : nat * nat :=
  (match start with None => 0 | Some i => slice_bound n i end,
   match stop with None => n | Some j => slice_bound n j end).

(** [a[lo:hi] = v] position by position, [i] being the index of the head. *)
Fixpoint fill_range {A : Type} (lo hi : nat) (v : A) (i : nat) (a : list A) : list A :=
  match a with
  | [] => []
  | x :: a' =>
      (if (lo <=? i) && (i <? hi) then v else x) :: fill_range lo hi v (S i) a'
  end.

(** [a[start:stop] = v] with a scalar [v]. *)
Definition setitem_slice {A : Type} (a : list A) (start stop : option Z) (v : A) : list A :=
  let '(lo, hi) := slice_indices (length a) start stop in
  fill_range lo hi v 0 a.

(** [a.max()]: numpy refuses an empty array. *)
Definition amax (a : list R) : exn + R :=
  match a with
  | [] => inl ValueError
  | x :: a' => inr (fold_left Rmax a' x)
  end.

(** [np.sqrt(a ** 2)], element by element, [square] being the square as
    the dtype of [a] computes it. *)
Definition sqrt_sq (square : R -> R) (a : list R) : list R :=
  map (fun v => sqrt (square v)) a.

Fixpoint zip_with {A B C : Type} (f : A -> B -> C) (a : list A) (b : list B) : list C :=
  match a, b with
  | x :: a', z :: b' => f x z :: zip_with f a' b'
  | _, _ => []
  end.

(** [a + b] on one-dimensional arrays: a length-one operand is broadcast,
    other unequal lengths are refused. *)
Definition add (a b : list R) : exn + list R :=
  match a, b with
  | [x], _ => inr (map (Rplus x) b)
  | _, [z] => inr (map (fun v => v + z)%R a)
  | _, _ => if length a =? length b then inr (zip_with Rplus a b) else inl ValueError
  end.

End Numpy.

(** ** The transform classes *)

(** A configured transform object.  The first two fields of the four
    [AudioTransform] subclasses are [always_apply] and [p].  The base class,
    whose [apply] only raises [NotImplementedError], is not a value of its
    own: its [__call__] is [AudioTransform_call] below, shared by the four. *)
#[local] Unset Elimination Schemes.
Inductive transform : Type :=
| GaussianNoiseSNR (always_apply : bool) (p : R) (min_snr max_snr : R)
| PinkNoiseSNR (always_apply : bool) (p : R) (min_snr max_snr : R)
| PitchShift (always_apply : bool) (p : R) (max_steps sr : Z)
| TimeShift (always_apply : bool) (p : R) (max_shift_second sr : Z) (padding_mode : string)
| Compose (transforms : list transform)
| OneOf (transforms : list transform).
#[local] Set Elimination Schemes.

(** *** Constructors ([__init__]) *)

Definition new_GaussianNoiseSNR (always_apply : bool) (p min_snr max_snr : R)
  : exn + transform :=
  inr (GaussianNoiseSNR always_apply p min_snr max_snr).

Definition new_PinkNoiseSNR (always_apply : bool) (p min_snr max_snr : R)
  : exn + transform :=
  inr (PinkNoiseSNR always_apply p min_snr max_snr).

Definition new_PitchShift (always_apply : bool) (p : R) (max_steps sr : Z)
  : exn + transform :=
  inr (PitchShift always_apply p max_steps sr).

(** [assert padding_mode in ['replace', 'zero']] *)
Definition new_TimeShift (always_apply : bool) (p : R) (max_shift_second sr : Z)
    (padding_mode : string) : exn + transform :=
  if existsb (String.eqb padding_mode) ["replace"; "zero"]%string
  then inr (TimeShift always_apply p max_shift_second sr padding_mode)
  else inl AssertionError.

Definition new_Compose (transforms : list transform) : exn + transform :=
  inr (Compose transforms).

Definition new_OneOf (transforms : list transform) : exn + transform :=
  inr (OneOf transforms).

(** A transform that cannot change anything: every leaf has
    [always_apply = False] and a [p] that no [rand()] value is below, and
    every [OneOf] has a child to pick. *)
Fixpoint never_applies (t : transform) : Prop :=
  match t with
  | GaussianNoiseSNR always_apply p _ _ => always_apply = false /\ (p <= 0)%R
  | PinkNoiseSNR always_apply p _ _ => always_apply = false /\ (p <= 0)%R
  | PitchShift always_apply p _ _ => always_apply = false /\ (p <= 0)%R
  | TimeShift always_apply p _ _ _ => always_apply = false /\ (p <= 0)%R
  | Compose transforms =>
      (fix all (ts : list transform) : Prop :=
         match ts with
         | [] => True
         | trns :: ts' => never_applies trns /\ all ts'
         end) transforms
  | OneOf transforms =>
      transforms <> []
      /\ (fix all (ts : list transform) : Prop :=
            match ts with
            | [] => True
            | trns :: ts' => never_applies trns /\ all ts'
            end) transforms
  end.

Section Transforms.

Context {E : Externals}.

(** *** The interpreter state and its monad *)

Record world : Type := mk_world { world_rng : rng; world_heap : list ndarray }.

(** A computation ends with a value or an exception, and a state either way. *)
Definition M (A : Type) : Type := world -> (exn + A) * world.

Definition ret {A : Type} (a : A) : M A := fun w => (inr a, w).

Definition raise {A : Type} (e : exn) : M A := fun w => (inl e, w).

Definition bind {A B : Type} (m : M A) (f : A -> M B) : M B :=
  fun w =>
    match m w with
    | (inr a, w') => f a w'
    | (inl e, w') => (inl e, w')
    end.

Definition lift_exn {A : Type} (r : exn + A) : M A := fun w => (r, w).

Definition draw {A : Type} (f : rng -> A * rng) : M A :=
  fun w => let '(a, g) := f (world_rng w) in (inr a, mk_world g (world_heap w)).

Definition draw_exn {A : Type} (f : rng -> (exn + A) * rng) : M A :=
  fun w => let '(r, g) := f (world_rng w) in (r, mk_world g (world_heap w)).

Notation "x <- m ;; k" := (bind m (fun x => k))
  (at level 61, m at next level, right associativity).
Notation "m ;;; k" := (bind m (fun _ => k))
  (at level 61, right associativity).

(** *** Arrays on the heap *)

Definition get_array (l : loc) : M ndarray :=
  fun w =>
    match nth_error (world_heap w) l with
    | Some a => (inr a, w)
    | None => (inl BadReference, w)
    end.

(** A new array object: its reference is the next free one. *)
Definition alloc (a : ndarray) : M loc :=
  fun w => (inr (length (world_heap w)),
            mk_world (world_rng w) (world_heap w ++ [a])).

Fixpoint list_set {A : Type} (l : list A) (i : nat) (v : A) : list A :=
  match l, i with
  | [], _ => []
  | _ :: l', O => v :: l'
  | x :: l', S i' => x :: list_set l' i' v
  end.

(** Overwrite the array object at [l] in place. *)
Definition store (l : loc) (a : ndarray) : M unit :=
  fun w => (inr tt, mk_world (world_rng w) (list_set (world_heap w) l a)).

(** [np.roll(y, shift)]: a new array. *)
Definition np_roll (y : loc) (shift : Z) : M loc :=
  a <- get_array y ;;
  alloc (mk_ndarray (arr_dtype a) (Numpy.roll (arr_data a) shift)).

(** [a[start:stop] = v]: writes into the array [a] refers to. *)
Definition np_setitem_slice (l : loc) (start stop : option Z) (v : R) : M unit :=
  a <- get_array l ;;
  store l (mk_ndarray (arr_dtype a) (Numpy.setitem_slice (arr_data a) start stop v)).

(** [a.astype(d)] on the value of a temporary. *)
Definition astype (d : dtype) (a : list R) : ndarray :=
  mk_ndarray d (map (round_to d) a).

(** [np.random.uniform(low, high)] is [low + (high - low) * random_sample()]. *)
Definition random_uniform (low high : R) : M R :=
  u <- draw random_rand ;;
  ret (low + (high - low) * u)%R.

(** *** [AudioTransform.__call__] *)

Definition AudioTransform_call (always_apply : bool) (p : R)
    (apply : loc -> M loc) (y : loc) : M loc :=
  if always_apply then apply y
  else
    r <- draw random_rand ;;
    if Rlt_dec r p then apply y else ret y.

(** *** The [apply] methods *)

(** The noise that is added: [noise * 1 / a_noise_peak * a_noise]. *)
Definition scaled_noise (noise : list R) (a_peak a_noise : R) : list R :=
  map (fun v => v * 1 / a_peak * a_noise)%R noise.

(** [np.random.randn(n)] as a generator that never raises. *)
Definition randn_noise (n : nat) (g : rng) : (exn + list R) * rng :=
  (inr (fst (random_randn n g)), snd (random_randn n g)).

(** The body shared by the two SNR transforms once the noise generator is
    fixed ([np.random.randn] or [cn.powerlaw_psd_gaussian(1, .)]).  The
    squares of [y] are taken in the dtype of [y], those of the noise in
    [float64], the dtype both generators return. *)
Definition snr_apply (gen : nat -> rng -> (exn + list R) * rng)
    (min_snr max_snr : R) (y : loc) : M loc :=
  snr <- random_uniform min_snr max_snr ;;
  ya <- get_array y ;;
  a_signal <- lift_exn (Numpy.amax
                          (Numpy.sqrt_sq (square_in (arr_dtype ya)) (arr_data ya))) ;;
  let a_noise := (a_signal / Rpower 10 (snr / 20))%R in
  noise <- draw_exn (gen (length (arr_data ya))) ;;
  a_peak <- lift_exn (Numpy.amax (Numpy.sqrt_sq (square_in Float64) noise)) ;;
  sum <- lift_exn (Numpy.add (arr_data ya) (scaled_noise noise a_peak a_noise)) ;;
  alloc (astype (arr_dtype ya) sum).

Definition GaussianNoiseSNR_apply : R -> R -> loc -> M loc :=
  snr_apply randn_noise.

Definition PinkNoiseSNR_apply : R -> R -> loc -> M loc :=
  snr_apply (powerlaw_psd_gaussian 1).

(** Lines 89-91, once [n_steps] is drawn. *)
Definition PitchShift_with_steps (sr n_steps : Z) (y : loc) : M loc :=
  ya <- get_array y ;;
  augmented <- lift_exn (pitch_shift ya sr n_steps) ;;
  alloc augmented.

Definition PitchShift_apply (max_steps sr : Z) (y : loc) : M loc :=
  n_steps <- draw_exn (random_randint (- max_steps) max_steps) ;;
  PitchShift_with_steps sr n_steps y.

(** Lines 104-111, once [shift] is drawn. *)
Definition TimeShift_with_shift (padding_mode : string) (shift : Z) (y : loc) : M loc :=
  augmented <- np_roll y shift ;;
  (if String.eqb padding_mode "zero"
   then
     if (shift >? 0)%Z
     then np_setitem_slice augmented None (Some shift) 0%R
     else np_setitem_slice augmented (Some shift) None 0%R
   else ret tt) ;;;
  ret augmented.

Definition TimeShift_apply (max_shift_second sr : Z) (padding_mode : string)
    (y : loc) : M loc :=
  shift <- draw_exn (random_randint (- sr * max_shift_second) (sr * max_shift_second)) ;;
  TimeShift_with_shift padding_mode shift y.

(** *** [__call__] of every class *)

Fixpoint invoke (t : transform) (y : loc) {struct t} : M loc :=
  match t with
  | GaussianNoiseSNR always_apply p min_snr max_snr =>
      AudioTransform_call always_apply p (GaussianNoiseSNR_apply min_snr max_snr) y
  | PinkNoiseSNR always_apply p min_snr max_snr =>
      AudioTransform_call always_apply p (PinkNoiseSNR_apply min_snr max_snr) y
  | PitchShift always_apply p max_steps sr =>
      AudioTransform_call always_apply p (PitchShift_apply max_steps sr) y
  | TimeShift always_apply p max_shift_second sr padding_mode =>
      AudioTransform_call always_apply p
        (TimeShift_apply max_shift_second sr padding_mode) y
  | Compose transforms =>
      (* for trns in self.transforms: y = trns(y) *)
      (fix loop (ts : list transform) (y : loc) {struct ts} : M loc :=
         match ts with
         | [] => ret y
         | trns :: ts' => y' <- invoke trns y ;; loop ts' y'
         end) transforms y
  | OneOf transforms =>
      trns_idx <- draw_exn (random_choice (length transforms)) ;;
      (* self.transforms[trns_idx] *)
      (fix item (ts : list transform) (i : nat) {struct ts} : M loc :=
         match ts, i with
         | [], _ => raise IndexError
         | trns :: _, O => invoke trns y
         | _ :: ts', S i' => item ts' i'
         end) transforms trns_idx
  end.

(** *** What the spec says of [Compose]

    Each child's [invoke] in list order, the output of one being the input of
    the next: the children are chained from the left, starting from the
    unchanged input. *)
Definition compose_chain (transforms : list transform) (y : loc) : M loc :=
  fold_left (fun m trns => bind m (invoke trns)) transforms (ret y).

(** The samples [TimeShift_with_shift] leaves in the array it returns, read
    off lines 104-109 (see [TimeShift_with_shift_run]). *)
Definition time_shifted (padding_mode : string) (shift : Z) (a : list R) : list R :=
  if String.eqb padding_mode "zero"
  then
    if (shift >? 0)%Z
    then Numpy.setitem_slice (Numpy.roll a shift) None (Some shift) 0%R
    else Numpy.setitem_slice (Numpy.roll a shift) (Some shift) None 0%R
  else Numpy.roll a shift.

(** A computation that only adds objects to the heap: whatever the outcome,
    the heap it leaves is the one it found followed by new objects. *)
Definition extends_heap {A : Type} (m : M A) : Prop :=
  forall w, exists extra, world_heap (snd (m w)) = world_heap w ++ extra.

(** A call that returns an array of the length and dtype of the one it was
    given, when it returns. *)
Definition keeps_shape (f : loc -> M loc) : Prop :=
  forall (y : loc) (w : world) ya r w',
    nth_error (world_heap w) y = Some ya ->
    f y w = (inr r, w') ->
    exists ra,
      nth_error (world_heap w') r = Some ra
      /\ length (arr_data ra) = length (arr_data ya)
      /\ arr_dtype ra = arr_dtype ya.

(** A call that returns the reference it was given or the reference of an
    array allocated during the call. *)
Definition input_or_fresh (f : loc -> M loc) : Prop :=
  forall (y : loc) (w : world) r w',
    f y w = (inr r, w') ->
    r = y \/ length (world_heap w) <= r < length (world_heap w').

(** A call that, when it returns, returns the next free reference and
    leaves one new array behind it. *)
Definition allocates_result (f : loc -> M loc) : Prop :=
  forall (y : loc) (w : world) r w',
    f y w = (inr r, w') ->
    r = length (world_heap w)
    /\ exists a, world_heap w' = world_heap w ++ [a].




End Transforms.

(** ** A concrete set of collaborators

    A deterministic stand-in for the libraries, used to run the model on
    concrete inputs: the random state is a counter. *)

Module Demo.

Definition rand (g : Z) : R * Z := ((IZR (g mod 4) / 4)%R, (g + 1)%Z).

Definition randint (low high g : Z) : (exn + Z) * Z :=
  if ((low <? high) && (- 2 ^ 63 <=? low) && (high <=? 2 ^ 63))%Z
  then (inr (low + g mod (high - low))%Z, (g + 1)%Z)
  else (inl ValueError, g).

Definition choice (n : nat) (g : Z) : (exn + nat) * Z :=
  match n with
  | O => (inl ValueError, g)
  | S _ => (inr (Z.to_nat (g mod Z.of_nat n)), (g + 1)%Z)
  end.

(** [1, -2, -2, ...]: a sequence of the requested length. *)
Definition noise (n : nat) : list R :=
  match n with
  | O => []
  | S n' => 1%R :: repeat (-2)%R n'
  end.

Definition randn (n : nat) (g : Z) : list R * Z := (noise n, (g + 1)%Z).

Definition powerlaw (e : R) (n : nat) (g : Z) : (exn + list R) * Z :=
  match n with
  | 0 => (inl ZeroDivisionError, g)
  | 1 => (inl IndexError, g)
  | _ => (inr (noise n), (g + 1)%Z)
  end.

(** Stands for the pitch shifter: the same samples, negated. *)
Definition shift_pitch (a : ndarray) (sr n_steps : Z) : exn + ndarray :=
  inr (mk_ndarray (arr_dtype a) (map Ropp (arr_data a))).

Definition round (d : dtype) (x : R) : R := x.

(** Half the smallest positive value of each format: a square below it is
    rounded to 0. *)
Definition tiny (d : dtype) : R :=
  match d with
  | Float16 => (/ 2 ^ 25)%R
  | Float32 => (/ 2 ^ 150)%R
  | Float64 => (/ 2 ^ 1075)%R
  end.

(** The square with its underflow; the value on overflow is left as the
    exact square. *)
Definition square (d : dtype) (v : R) : R :=
  if Rlt_dec (v ^ 2) (tiny d) then 0%R else (v ^ 2)%R.

Definition externals : Externals := {|
  rng := Z;
  random_rand := rand;
  random_randint := randint;
  random_choice := choice;
  random_randn := randn;
  powerlaw_psd_gaussian := powerlaw;
  pitch_shift := shift_pitch;
  round_to := round;
  square_in := square
|}.

End Demo.

(** * Properties *)

(** ** Sequences *)

Section NumpyFacts.

Variable A : Type.
Implicit Types (a : list A) (shift : Z).

Lemma roll_length a shift : length (Numpy.roll a shift) = length a.
Proof.
  unfold Numpy.roll.
  destruct (Z.to_nat _ =? 0); [reflexivity|].
  rewrite length_app, length_skipn, length_firstn. lia.
Qed.

Lemma roll_offset_bound a shift :
  a <> [] ->
  (0 <= shift mod Z.of_nat (length a) < Z.of_nat (length a))%Z.
Proof.
  intros Ha. apply Z.mod_pos_bound.
  destruct a; [congruence | simpl; lia].
Qed.

(** Rotation forward by [shift]: position [i] of the result holds what was
    at position [(i - shift) mod n]. *)
Lemma roll_nth_error a shift i :
  i < length a ->
  nth_error (Numpy.roll a shift) i
  = nth_error a (Z.to_nat ((Z.of_nat i - shift) mod Z.of_nat (length a))).
Proof.
  intros Hi.
  assert (Ha : a <> []) by (destruct a; [simpl in Hi; lia | discriminate]).
  pose proof (roll_offset_bound a shift Ha) as Hoff.
  unfold Numpy.roll.
  replace (length a =? 0) with false by (symmetry; apply Nat.eqb_neq; lia).
  set (n := length a) in *.
  set (off := (shift mod Z.of_nat n)%Z) in *.
  rewrite <- (Zminus_mod_idemp_r (Z.of_nat i) shift (Z.of_nat n)). fold off.
  destruct (Z.to_nat off =? 0) eqn:Hz.
  - apply Nat.eqb_eq in Hz.
    assert (off = 0%Z) as -> by lia.
    rewrite Z.sub_0_r, Z.mod_small by lia. now rewrite Nat2Z.id.
  - apply Nat.eqb_neq in Hz.
    destruct (lt_dec i (Z.to_nat off)) as [Hlt | Hge].
    + rewrite nth_error_app1 by (rewrite length_skipn; fold n; lia).
      rewrite nth_error_skipn. f_equal.
      assert (((Z.of_nat i - off) mod Z.of_nat n)%Z = (Z.of_nat i - off + Z.of_nat n)%Z) as ->.
      { symmetry. apply (Z.mod_unique _ _ (-1)%Z); lia. }
      lia.
    + rewrite nth_error_app2 by (rewrite length_skipn; fold n; lia).
      rewrite length_skipn. fold n.
      rewrite nth_error_firstn.
      replace (n - (n - Z.to_nat off)) with (Z.to_nat off) by lia.
      destruct (Nat.ltb_spec (i - Z.to_nat off) (n - Z.to_nat off)); [|lia].
      f_equal. rewrite Z.mod_small by lia. lia.
Qed.

Lemma fill_range_length lo hi (v : A) i a :
  length (Numpy.fill_range lo hi v i a) = length a.
Proof.
  revert i. induction a as [|x a IH]; intros i; simpl; [reflexivity|].
  now rewrite IH.
Qed.

Lemma fill_range_nth_error lo hi (v : A) i a k :
  nth_error (Numpy.fill_range lo hi v i a) k
  = option_map (fun x => if (lo <=? i + k) && (i + k <? hi) then v else x)
      (nth_error a k).
Proof.
  revert i k. induction a as [|x a IH]; intros i k; simpl.
  - now destruct k.
  - destruct k as [|k]; simpl.
    + now rewrite Nat.add_0_r.
    + rewrite IH. now replace (S i + k) with (i + S k) by lia.
Qed.

Lemma setitem_slice_length a start stop (v : A) :
  length (Numpy.setitem_slice a start stop v) = length a.
Proof.
  unfold Numpy.setitem_slice.
  destruct (Numpy.slice_indices _ _ _). apply fill_range_length.
Qed.

(** [a[:stop] = v] for a positive [stop]. *)
Lemma setitem_prefix_nth_error a stop (v : A) k :
  (0 < stop)%Z ->
  nth_error (Numpy.setitem_slice a None (Some stop) v) k
  = option_map (fun x => if (Z.of_nat k <? stop)%Z then v else x) (nth_error a k).
Proof.
  intros Hs. unfold Numpy.setitem_slice, Numpy.slice_indices, Numpy.slice_bound.
  rewrite fill_range_nth_error.
  destruct (nth_error a k) eqn:Hk; [simpl | reflexivity].
  assert (k < length a) by (apply nth_error_Some; congruence).
  destruct (Z.ltb_spec stop 0); [lia|].
  destruct (Z.ltb_spec (Z.of_nat k) stop), (Nat.ltb_spec k (Z.to_nat (Z.min stop (Z.of_nat (length a)))));
    simpl; try reflexivity; lia.
Qed.

(** [a[start:] = v] for a negative [start]. *)
Lemma setitem_suffix_nth_error a start (v : A) k :
  (start < 0)%Z ->
  nth_error (Numpy.setitem_slice a (Some start) None v) k
  = option_map (fun x => if (Z.of_nat (length a) + start <=? Z.of_nat k)%Z then v else x)
      (nth_error a k).
Proof.
  intros Hs. unfold Numpy.setitem_slice, Numpy.slice_indices, Numpy.slice_bound.
  rewrite fill_range_nth_error.
  destruct (nth_error a k) eqn:Hk; [simpl | reflexivity].
  assert (k < length a) by (apply nth_error_Some; congruence).
  destruct (Z.ltb_spec start 0); [|lia].
  destruct (Z.leb_spec (Z.of_nat (length a) + start) (Z.of_nat k)),
    (Nat.leb_spec (Z.to_nat (Z.max (Z.of_nat (length a) + start) 0)) k),
    (Nat.ltb_spec k (length a)); simpl; try reflexivity; lia.
Qed.

Lemma fill_range_all (v : A) i a hi :
  i + length a <= hi ->
  Numpy.fill_range 0 hi v i a = repeat v (length a).
Proof.
  revert i. induction a as [|x a IH]; intros i Hhi; simpl in *; [reflexivity|].
  destruct (Nat.ltb_spec i hi); [|lia].
  f_equal. apply IH. lia.
Qed.

(** [a[0:] = v] overwrites every position. *)
Lemma setitem_from_zero a (v : A) :
  Numpy.setitem_slice a (Some 0%Z) None v = repeat v (length a).
Proof.
  unfold Numpy.setitem_slice, Numpy.slice_indices, Numpy.slice_bound.
  replace (Z.to_nat _) with 0 by (simpl; lia).
  apply fill_range_all. lia.
Qed.

Lemma roll_zero a : Numpy.roll a 0 = a.
Proof.
  unfold Numpy.roll. now rewrite Zmod_0_l.
Qed.

End NumpyFacts.

(** ** The heap *)

Lemma nth_error_snoc {A : Type} (h : list A) (a : A) :
  nth_error (h ++ [a]) (length h) = Some a.
Proof.
  rewrite nth_error_app2 by lia. now rewrite Nat.sub_diag.
Qed.

Lemma list_set_snoc {A : Type} (h : list A) (a b : A) :
  list_set (h ++ [a]) (length h) b = h ++ [b].
Proof.
  induction h as [|x h IH]; simpl; [reflexivity | now rewrite IH].
Qed.

Lemma nth_error_app_old {A : Type} (h extra : list A) (l : nat) (a : A) :
  nth_error h l = Some a -> nth_error (h ++ extra) l = Some a.
Proof.
  intros Hl. rewrite nth_error_app1; [assumption|].
  apply nth_error_Some. congruence.
Qed.

(** ** [TimeShift] *)

Section TimeShiftFacts.

Context {E : Externals}.

Lemma np_roll_run (y : loc) shift (w : world) ya :
  nth_error (world_heap w) y = Some ya ->
  np_roll y shift w
  = (inr (length (world_heap w)),
     mk_world (world_rng w)
       (world_heap w ++ [mk_ndarray (arr_dtype ya) (Numpy.roll (arr_data ya) shift)])).
Proof.
  intros Hy. unfold np_roll, bind, get_array, alloc. now rewrite Hy.
Qed.

Lemma np_setitem_slice_run (l : loc) start stop v (w : world) a :
  nth_error (world_heap w) l = Some a ->
  np_setitem_slice l start stop v w
  = (inr tt,
     mk_world (world_rng w)
       (list_set (world_heap w) l
          (mk_ndarray (arr_dtype a) (Numpy.setitem_slice (arr_data a) start stop v)))).
Proof.
  intros Hl. unfold np_setitem_slice, bind, get_array, store. now rewrite Hl.
Qed.

(** [TimeShift_with_shift] reads [y], allocates one array and returns its
    reference; the array holds [time_shifted] of the samples of [y]. *)
Lemma TimeShift_with_shift_run padding_mode shift (y : loc) (w : world) ya :
  nth_error (world_heap w) y = Some ya ->
  TimeShift_with_shift padding_mode shift y w
  = (inr (length (world_heap w)),
     mk_world (world_rng w)
       (world_heap w
          ++ [mk_ndarray (arr_dtype ya) (time_shifted padding_mode shift (arr_data ya))])).
Proof.
  intros Hy.
  unfold TimeShift_with_shift, time_shifted, bind.
  erewrite np_roll_run by eassumption.
  destruct (String.eqb padding_mode "zero"); [|reflexivity].
  destruct (shift >? 0)%Z;
    (erewrite np_setitem_slice_run by (simpl; apply nth_error_snoc));
    simpl; now rewrite list_set_snoc.
Qed.

Lemma draw_exn_run {A : Type} (f : rng -> (exn + A) * rng) (w : world) :
  draw_exn f w
  = (fst (f (world_rng w)), mk_world (snd (f (world_rng w))) (world_heap w)).
Proof.
  unfold draw_exn. now destruct (f (world_rng w)).
Qed.

Lemma draw_run {A : Type} (f : rng -> A * rng) (w : world) :
  draw f w
  = (inr (fst (f (world_rng w))), mk_world (snd (f (world_rng w))) (world_heap w)).
Proof.
  unfold draw. now destruct (f (world_rng w)).
Qed.

(** [TimeShift.apply] when the random source returns [shift]. *)
Lemma TimeShift_apply_run max_shift_second sr padding_mode (y : loc) (w : world)
    shift g ya :
  random_randint (- sr * max_shift_second) (sr * max_shift_second) (world_rng w)
    = (inr shift, g) ->
  nth_error (world_heap w) y = Some ya ->
  TimeShift_apply max_shift_second sr padding_mode y w
  = (inr (length (world_heap w)),
     mk_world g
       (world_heap w
          ++ [mk_ndarray (arr_dtype ya) (time_shifted padding_mode shift (arr_data ya))])).
Proof.
  intros Hdraw Hy. unfold TimeShift_apply, bind.
  rewrite draw_exn_run, Hdraw. cbn [fst snd].
  now erewrite TimeShift_with_shift_run by (simpl; eassumption).
Qed.

(** In ["replace"] mode the result is the rotation. *)
Lemma time_shifted_replace shift (a : list R) :
  time_shifted "replace" shift a = Numpy.roll a shift.
Proof. reflexivity. Qed.

(** In ["zero"] mode with a positive shift: zeros in the first [shift]
    positions, the rotated samples elsewhere. *)
Lemma time_shifted_zero_positive shift (a : list R) i :
  (0 < shift)%Z -> i < length a ->
  nth_error (time_shifted "zero" shift a) i
  = if (Z.of_nat i <? shift)%Z then Some 0%R
    else nth_error a (Z.to_nat ((Z.of_nat i - shift) mod Z.of_nat (length a))).
Proof.
  intros Hs Hi. unfold time_shifted. simpl String.eqb. cbv iota.
  destruct (Z.gtb_spec shift 0); [|lia].
  rewrite setitem_prefix_nth_error by assumption.
  rewrite roll_nth_error by assumption.
  destruct (nth_error a _) eqn:Hn.
  - simpl. now destruct (Z.of_nat i <? shift)%Z.
  - exfalso. apply nth_error_None in Hn.
    pose proof (Z.mod_pos_bound (Z.of_nat i - shift) (Z.of_nat (length a))). lia.
Qed.

(** In ["zero"] mode with a negative shift: zeros in the last [|shift|]
    positions, the rotated samples elsewhere. *)
Lemma time_shifted_zero_negative shift (a : list R) i :
  (shift < 0)%Z -> i < length a ->
  nth_error (time_shifted "zero" shift a) i
  = if (Z.of_nat (length a) + shift <=? Z.of_nat i)%Z then Some 0%R
    else nth_error a (Z.to_nat ((Z.of_nat i - shift) mod Z.of_nat (length a))).
Proof.
  intros Hs Hi. unfold time_shifted. simpl String.eqb. cbv iota.
  destruct (Z.gtb_spec shift 0); [lia|].
  rewrite setitem_suffix_nth_error by assumption.
  rewrite roll_length, roll_nth_error by assumption.
  destruct (nth_error a _) eqn:Hn.
  - simpl. now destruct (_ <=? _)%Z.
  - exfalso. apply nth_error_None in Hn.
    pose proof (Z.mod_pos_bound (Z.of_nat i - shift) (Z.of_nat (length a))). lia.
Qed.

(** In ["zero"] mode with shift 0, [augmented[0:] = 0] clears every sample. *)
Lemma time_shifted_zero_shift0 (a : list R) :
  time_shifted "zero" 0 a = repeat 0%R (length a).
Proof.
  unfold time_shifted. simpl.
  now rewrite roll_zero, setitem_from_zero.
Qed.

(** The spec's own examples on [[1, 2, 3, 4, 5]]. *)
Example time_shifted_zero_forward_two :
  time_shifted "zero" 2 [1; 2; 3; 4; 5]%R = [0; 0; 1; 2; 3]%R.
Proof. reflexivity. Qed.

Example time_shifted_zero_backward_two :
  time_shifted "zero" (-2) [1; 2; 3; 4; 5]%R = [3; 4; 5; 0; 0]%R.
Proof. reflexivity. Qed.

Example time_shifted_replace_forward_two :
  time_shifted "replace" 2 [1; 2; 3; 4; 5]%R = [4; 5; 1; 2; 3]%R.
Proof. reflexivity. Qed.

(** A shift beyond the length rotates modulo the length and, in ["zero"]
    mode, clears everything. *)
Example time_shifted_zero_forward_seven :
  time_shifted "zero" 7 [1; 2; 3; 4; 5]%R = [0; 0; 0; 0; 0]%R.
Proof. reflexivity. Qed.

End TimeShiftFacts.

(** C1.  The claim fails on the code at shift 0 in ["zero"] mode.  With the
    default [TimeShift(always_apply=True, padding_mode='zero')], the waveform
    [[1, 2, 3]] and a random source whose [randint(-64000, 64000)] returns 0,
    the call returns a new array [[0, 0, 0]]: the line [augmented[shift:] = 0]
    is [augmented[0:] = 0].  The claim has the output equal to the input
    there. *)
Theorem TimeShift_zero_mode_shift0_silences :
  random_randint (Externals := Demo.externals) (- 32000 * 2) (32000 * 2) 64000%Z
    = (inr 0%Z, 64001%Z)
  /\ invoke (E := Demo.externals) (TimeShift true (1 / 2) 2 32000 "zero") 0
       (mk_world (E := Demo.externals) 64000%Z [mk_ndarray Float32 [1; 2; 3]%R])
     = (inr 1,
        mk_world (E := Demo.externals) 64001%Z
          [mk_ndarray Float32 [1; 2; 3]%R; mk_ndarray Float32 [0; 0; 0]%R])
  /\ [0; 0; 0]%R <> [1; 2; 3]%R.
Proof.
  split; [reflexivity|]. split.
  - unfold invoke, AudioTransform_call.
    erewrite TimeShift_apply_run by reflexivity.
    now rewrite time_shifted_zero_shift0.
  - intros H. injection H as H _ _. lra.
Qed.

(** ** The stand-in collaborators keep the contracts *)

Lemma demo_noise_length n : length (Demo.noise n) = n.
Proof.
  destruct n; simpl; [reflexivity | now rewrite repeat_length].
Qed.



Lemma demo_externals_ok : ExternalsOk Demo.externals.
Proof.
  constructor; simpl.
  - intros g. unfold Demo.rand. simpl.
    pose proof (Z.mod_pos_bound g 4 ltac:(lia)) as [H0 H4].
    apply IZR_le in H0. apply IZR_lt in H4. lra.
  - intros low high g. unfold Demo.randint.
    destruct (_ && _ && _)%bool eqn:Hc; [|reflexivity].
    apply andb_true_iff in Hc. destruct Hc as [Hc _].
    apply andb_true_iff in Hc. destruct Hc as [Hc _].
    apply Z.ltb_lt in Hc.
    eexists. split; [reflexivity|].
    pose proof (Z.mod_pos_bound g (high - low) ltac:(lia)). lia.
  - intros [|n] g; simpl; [reflexivity|].
    eexists. split; [reflexivity|].
    pose proof (Z.mod_pos_bound g (Z.of_nat (S n)) ltac:(lia)). lia.
  - intros n g. apply demo_noise_length.
  - intros [|[|n]] g; try reflexivity.
    eexists. split; [reflexivity | apply demo_noise_length].
  - intros d. unfold Demo.square. destruct (Rlt_dec _ _); lra.
  - intros a sr n b H. unfold Demo.shift_pitch in H.
    injection H as <-. simpl. now rewrite length_map.
Qed.



(** ** The gate *)

Section GateFacts.

Context {E : Externals}.

(** C3.  With [always_apply] the call is [apply] on the untouched state: no
    draw.  Otherwise one [rand()] value [r], in [0, 1), is drawn; the call is
    [apply] after the draw when [r < p], and returns the reference [y] it was
    given, on an unchanged heap, when [r >= p].  So [p = 0] always returns
    [y] and [p = 1] always runs [apply].  The four [AudioTransform]
    subclasses are called through this gate. *)
Theorem gate_semantics (ok : ExternalsOk E) (p : R) (apply : loc -> M loc)
    (y : loc) (w : world) :
  let r := fst (random_rand (world_rng w)) in
  let w1 := mk_world (snd (random_rand (world_rng w))) (world_heap w) in
  AudioTransform_call true p apply y w = apply y w
  /\ (0 <= r < 1)%R
  /\ ((r < p)%R -> AudioTransform_call false p apply y w = apply y w1)
  /\ ((r >= p)%R -> AudioTransform_call false p apply y w = (inr y, w1))
  /\ (p = 0%R -> AudioTransform_call false p apply y w = (inr y, w1))
  /\ (p = 1%R -> AudioTransform_call false p apply y w = apply y w1)
  /\ (forall a lo hi,
        invoke (GaussianNoiseSNR a p lo hi) y w
        = AudioTransform_call a p (GaussianNoiseSNR_apply lo hi) y w)
  /\ (forall a lo hi,
        invoke (PinkNoiseSNR a p lo hi) y w
        = AudioTransform_call a p (PinkNoiseSNR_apply lo hi) y w)
  /\ (forall a max_steps sr,
        invoke (PitchShift a p max_steps sr) y w
        = AudioTransform_call a p (PitchShift_apply max_steps sr) y w)
  /\ (forall a max_shift_second sr padding_mode,
        invoke (TimeShift a p max_shift_second sr padding_mode) y w
        = AudioTransform_call a p
            (TimeShift_apply max_shift_second sr padding_mode) y w).
Proof.
  intros r w1.
  pose proof (rand_range (world_rng w)) as Hr. fold r in Hr.
  assert (Hcall : AudioTransform_call false p apply y w
                  = if Rlt_dec r p then apply y w1 else (inr y, w1)).
  { unfold AudioTransform_call, bind. rewrite draw_run. fold r w1.
    now destruct (Rlt_dec r p). }
  repeat split; try tauto; try reflexivity; rewrite Hcall.
  - intros Hlt. now destruct (Rlt_dec r p).
  - intros Hge. destruct (Rlt_dec r p); [lra | reflexivity].
  - intros ->. destruct (Rlt_dec r 0); [lra | reflexivity].
  - intros ->. destruct (Rlt_dec r 1); [reflexivity | lra].
Qed.

End GateFacts.

(** With the stand-in source at state 0 the draw is 0: a gate with [p = 1/2]
    runs [apply]. *)
Lemma gate_semantics_witness :
  ExternalsOk Demo.externals
  /\ AudioTransform_call (E := Demo.externals) false (1 / 2)
       (fun y => raise IndexError) 0 (mk_world (E := Demo.externals) 0%Z [])
     = (inl IndexError, mk_world (E := Demo.externals) 1%Z []).
Proof.
  split; [exact demo_externals_ok|].
  pose proof (gate_semantics (E := Demo.externals) demo_externals_ok (1 / 2)
                (fun y => raise IndexError) 0
                (mk_world (E := Demo.externals) 0%Z []))
    as (_ & _ & Hlt & _).
  rewrite Hlt; [reflexivity|].
  simpl. unfold Rdiv. rewrite Rmult_0_l. lra.
Defined.

(** ** Construction *)

(** C4, as the code has it.  No constructor looks at [p]: whatever [p] is,
    inside [0, 1] or not, the three constructors without a padding mode
    return the object and [TimeShift] does so for both padding modes; [p]
    is stored as given. *)
Theorem construction_accepts_every_p (always_apply : bool) (p : R)
    (min_snr max_snr : R) (max_steps max_shift_second sr : Z) :
  new_GaussianNoiseSNR always_apply p min_snr max_snr
    = inr (GaussianNoiseSNR always_apply p min_snr max_snr)
  /\ new_PinkNoiseSNR always_apply p min_snr max_snr
     = inr (PinkNoiseSNR always_apply p min_snr max_snr)
  /\ new_PitchShift always_apply p max_steps sr
     = inr (PitchShift always_apply p max_steps sr)
  /\ new_TimeShift always_apply p max_shift_second sr "replace"
     = inr (TimeShift always_apply p max_shift_second sr "replace")
  /\ new_TimeShift always_apply p max_shift_second sr "zero"
     = inr (TimeShift always_apply p max_shift_second sr "zero").
Proof. repeat split. Qed.

(** C4, as stated, fails: [GaussianNoiseSNR(p = 2)] is constructed without
    an error although 2 is outside [0, 1]. *)
Lemma probability_two_is_accepted :
  ~ (0 <= 2 <= 1)%R
  /\ (forall e : exn, new_GaussianNoiseSNR false 2 5 20 <> inl e)
  /\ new_GaussianNoiseSNR false 2 5 20 = inr (GaussianNoiseSNR false 2 5 20).
Proof.
  split; [lra|]. split; [discriminate | reflexivity].
Qed.

Section PaddingModeFacts.

Context {E : Externals}.

(** Whatever the padding mode string, the part of [TimeShift.apply] after
    the draw returns normally on a reference that is on the heap. *)
Lemma TimeShift_with_shift_returns padding_mode shift (y : loc) (w : world) ya :
  nth_error (world_heap w) y = Some ya ->
  exists r w', TimeShift_with_shift padding_mode shift y w = (inr r, w').
Proof.
  intros Hy. erewrite TimeShift_with_shift_run by eassumption. eauto.
Qed.

(** C9.  [TimeShift(padding_mode = m)] raises at construction (the
    [assert], Python's [AssertionError]) when [m] is neither ["replace"] nor
    ["zero"], as for ["bogus"], so that no object exists to be called; it
    returns the object otherwise.  [apply] has no failure that depends on
    the mode: after the draw it returns normally for any mode string, and an
    exception of [apply] is the one [randint] raised. *)
Theorem padding_mode_checked_at_construction (always_apply : bool) (p : R)
    (max_shift_second sr : Z) (padding_mode : string) :
  (padding_mode <> "replace"%string -> padding_mode <> "zero"%string ->
   new_TimeShift always_apply p max_shift_second sr padding_mode = inl AssertionError)
  /\ (padding_mode = "replace"%string \/ padding_mode = "zero"%string ->
      new_TimeShift always_apply p max_shift_second sr padding_mode
      = inr (TimeShift always_apply p max_shift_second sr padding_mode))
  /\ new_TimeShift always_apply p max_shift_second sr "bogus" = inl AssertionError
  /\ (forall shift (y : loc) (w : world) ya,
        nth_error (world_heap w) y = Some ya ->
        exists r w', TimeShift_with_shift padding_mode shift y w = (inr r, w'))
  /\ (forall (y : loc) (w : world) ya e w',
        nth_error (world_heap w) y = Some ya ->
        TimeShift_apply max_shift_second sr padding_mode y w = (inl e, w') ->
        fst (random_randint (- sr * max_shift_second) (sr * max_shift_second)
               (world_rng w)) = inl e).
Proof.
  repeat split.
  - intros Hr Hz. unfold new_TimeShift. simpl.
    apply String.eqb_neq in Hr, Hz. now rewrite Hr, Hz.
  - intros [-> | ->]; reflexivity.
  - intros shift y w ya Hy. eapply TimeShift_with_shift_returns; eassumption.
  - intros y w ya e w' Hy Happ.
    unfold TimeShift_apply, bind in Happ. rewrite draw_exn_run in Happ.
    destruct (fst (random_randint _ _ _)) as [e0 | shift] eqn:Hd.
    + now injection Happ as -> _.
    + erewrite TimeShift_with_shift_run in Happ by (simpl; eassumption).
      discriminate.
Qed.

End PaddingModeFacts.

(** ** Compositions *)

Section CompositionFacts.

Context {E : Externals}.

(** The loop of [Compose.__call__]. *)
Lemma invoke_Compose_cons trns ts (y : loc) (w : world) :
  invoke (Compose (trns :: ts)) y w
  = bind (invoke trns y) (invoke (Compose ts)) w.
Proof. reflexivity. Qed.

Lemma bind_assoc {A B C : Type} (m : M A) (f : A -> M B) (g : B -> M C) (w : world) :
  bind (bind m f) g w = bind m (fun a => bind (f a) g) w.
Proof.
  unfold bind. destruct (m w) as [[e | a] w1]; reflexivity.
Qed.

Lemma bind_ext {A B : Type} (m : M A) (f g : A -> M B) (w : world) :
  (forall a w', f a w' = g a w') -> bind m f w = bind m g w.
Proof.
  intros H. unfold bind. destruct (m w) as [[e | a] w1]; [reflexivity | apply H].
Qed.

Lemma compose_chain_from ts (m : M loc) (w : world) :
  fold_left (fun m trns => bind m (invoke trns)) ts m w
  = bind m (invoke (Compose ts)) w.
Proof.
  revert m w. induction ts as [|trns ts IH]; intros m w; simpl fold_left.
  - unfold bind. simpl. destruct (m w) as [[e | a] w1]; reflexivity.
  - rewrite IH, bind_assoc. apply bind_ext. intros a w'.
    now rewrite invoke_Compose_cons.
Qed.

(** C6.  [Compose(ts)] is the chain of its children's calls in list order,
    each fed the reference the previous one returned; for two children it is
    [B] called on what [A] returned, on the state [A] left (the random draws
    are consumed in that order); for no child it returns [y] itself on an
    unchanged state. *)
Theorem Compose_applies_children_in_order ts A B (y : loc) (w : world) :
  invoke (Compose ts) y w = compose_chain ts y w
  /\ invoke (Compose [A; B]) y w = bind (invoke A y) (invoke B) w
  /\ invoke (Compose []) y w = (inr y, w).
Proof.
  repeat split.
  - unfold compose_chain. rewrite compose_chain_from. reflexivity.
  - rewrite invoke_Compose_cons. apply bind_ext. intros a w'.
    rewrite invoke_Compose_cons. unfold bind.
    destruct (invoke B a w') as [[e | b] w2]; reflexivity.
Qed.

(** [self.transforms[trns_idx]] followed by the call. *)
Lemma invoke_OneOf_run ts (y : loc) (w : world) i g t :
  random_choice (length ts) (world_rng w) = (inr i, g) ->
  nth_error ts i = Some t ->
  invoke (OneOf ts) y w = invoke t y (mk_world g (world_heap w)).
Proof.
  intros Hc Ht. simpl. unfold bind. rewrite draw_exn_run, Hc. cbn [fst snd].
  clear Hc. revert i Ht. induction ts as [|t0 ts IH]; intros i Ht.
  - now destruct i.
  - destruct i as [|i]; simpl in Ht.
    + now injection Ht as ->.
    + now apply IH.
Qed.

(** C7.  For a non-empty child list, [OneOf] draws one index [i] with
    [np.random.choice(len(children))], [0 <= i < len(children)], and the
    call is the call of child [i] on the state after that draw: the child's
    own gate decides whether its [apply] runs. *)
Theorem OneOf_delegates_to_drawn_child (ok : ExternalsOk E) ts (y : loc) (w : world) :
  ts <> [] ->
  exists i g t,
    random_choice (length ts) (world_rng w) = (inr i, g)
    /\ i < length ts
    /\ nth_error ts i = Some t
    /\ invoke (OneOf ts) y w = invoke t y (mk_world g (world_heap w)).
Proof.
  intros Hts.
  pose proof (choice_range (length ts) (world_rng w)) as Hc.
  destruct (length ts) as [|n] eqn:Hlen.
  - destruct ts; [congruence | discriminate].
  - destruct Hc as (i & Hi & Hlt).
    destruct (nth_error ts i) as [t|] eqn:Ht.
    + exists i, (snd (random_choice (S n) (world_rng w))), t.
      assert (Hdraw : random_choice (S n) (world_rng w)
                      = (inr i, snd (random_choice (S n) (world_rng w)))).
      { rewrite <- Hi. now destruct (random_choice (S n) (world_rng w)). }
      repeat split; try assumption.
      eapply invoke_OneOf_run; [rewrite Hlen; exact Hdraw | assumption].
    + apply nth_error_None in Ht. lia.
Qed.

End CompositionFacts.

(** With two children and the stand-in source at state 3, the index drawn
    is 1. *)
Lemma OneOf_delegates_witness :
  ExternalsOk Demo.externals
  /\ [PitchShift true 1 5 32000; TimeShift true 1 2 32000 "zero"] <> []
  /\ exists i g t,
       random_choice (Externals := Demo.externals) 2 3%Z = (inr i, g)
       /\ i < 2
       /\ nth_error [PitchShift true 1 5 32000; TimeShift true 1 2 32000 "zero"] i
          = Some t
       /\ invoke (E := Demo.externals)
            (OneOf [PitchShift true 1 5 32000; TimeShift true 1 2 32000 "zero"]) 0
            (mk_world (E := Demo.externals) 3%Z [mk_ndarray Float32 [1; 2; 3]%R])
          = invoke (E := Demo.externals) t 0
              (mk_world (E := Demo.externals) g [mk_ndarray Float32 [1; 2; 3]%R]).
Proof.
  split; [exact demo_externals_ok|]. split; [discriminate|].
  exact (OneOf_delegates_to_drawn_child (E := Demo.externals) demo_externals_ok
           [PitchShift true 1 5 32000; TimeShift true 1 2 32000 "zero"] 0
           (mk_world (E := Demo.externals) 3%Z [mk_ndarray Float32 [1; 2; 3]%R])
           ltac:(discriminate)).
Defined.

(** ** The integer draws *)

Section DrawFacts.

Context {E : Externals}.

Lemma randint_draw (ok : ExternalsOk E) (low high : Z) g :
  (low < high)%Z -> (- 2 ^ 63 <= low)%Z -> (high <= 2 ^ 63)%Z ->
  exists v g', random_randint low high g = (inr v, g') /\ (low <= v < high)%Z.
Proof.
  intros Hlt Hlow Hhigh. pose proof (randint_range low high g) as Hr.
  rewrite (proj2 (Z.ltb_lt _ _) Hlt), (proj2 (Z.leb_le _ _) Hlow),
    (proj2 (Z.leb_le _ _) Hhigh) in Hr.
  destruct Hr as (v & Hv & Hb).
  exists v, (snd (random_randint low high g)). split; [|assumption].
  rewrite <- Hv. now destruct (random_randint low high g).
Qed.

Lemma randint_refuses (ok : ExternalsOk E) (low high : Z) g :
  (high <= low \/ low < - 2 ^ 63 \/ 2 ^ 63 < high)%Z ->
  fst (random_randint low high g) = inl ValueError.
Proof.
  intros Hbad. pose proof (randint_range low high g) as Hr.
  destruct (_ && _ && _)%bool eqn:Hc; [|assumption].
  apply andb_true_iff in Hc. destruct Hc as [Hc Hhigh].
  apply andb_true_iff in Hc. destruct Hc as [Hlt Hlow].
  apply Z.ltb_lt in Hlt. apply Z.leb_le in Hlow, Hhigh.
  destruct Hbad as [Hbad | [Hbad | Hbad]]; exfalso.
  - apply (Z.lt_irrefl low). now apply Z.lt_le_trans with high.
  - apply (Z.lt_irrefl low). now apply Z.lt_le_trans with (- 2 ^ 63)%Z.
  - apply (Z.lt_irrefl high). now apply Z.le_lt_trans with (2 ^ 63)%Z.
Qed.

(** What [randint] returns is in the range it was asked. *)
Lemma randint_in_range (ok : ExternalsOk E) (low high : Z) g v g' :
  random_randint low high g = (inr v, g') -> (low <= v < high)%Z.
Proof.
  intros Hd. pose proof (randint_range low high g) as Hr.
  rewrite Hd in Hr. simpl in Hr.
  destruct (_ && _ && _)%bool; [|discriminate].
  destruct Hr as (v' & Hv & Hb). now injection Hv as <-.
Qed.

(** C8.  [PitchShift.apply] asks [randint(-max_steps, max_steps)]: whatever
    value [n] that call returns satisfies [-max_steps <= n < max_steps], so
    that [max_steps] itself is never the step count, and the rest of the
    body runs with [n].  The call returns when the range is not empty and
    within [int64]; otherwise [randint] raises and so does [apply].
    [TimeShift.apply] does the same with
    [randint(-sr * max_shift_second, sr * max_shift_second)]. *)
Theorem shift_draws_are_half_open (ok : ExternalsOk E)
    (max_steps sr max_shift_second : Z) (padding_mode : string)
    (y : loc) (w : world) :
  (forall n g,
     random_randint (- max_steps) max_steps (world_rng w) = (inr n, g) ->
     (- max_steps <= n < max_steps)%Z /\ n <> max_steps
     /\ PitchShift_apply max_steps sr y w
        = PitchShift_with_steps sr n y (mk_world g (world_heap w)))
  /\ ((0 < max_steps <= 2 ^ 63)%Z ->
      exists n g,
        random_randint (- max_steps) max_steps (world_rng w) = (inr n, g))
  /\ ((max_steps <= 0 \/ 2 ^ 63 < max_steps)%Z ->
      fst (PitchShift_apply max_steps sr y w) = inl ValueError)
  /\ (forall s g,
        random_randint (- sr * max_shift_second) (sr * max_shift_second) (world_rng w)
          = (inr s, g) ->
        (- (sr * max_shift_second) <= s < sr * max_shift_second)%Z
        /\ s <> (sr * max_shift_second)%Z
        /\ TimeShift_apply max_shift_second sr padding_mode y w
           = TimeShift_with_shift padding_mode s y (mk_world g (world_heap w)))
  /\ ((0 < sr * max_shift_second <= 2 ^ 63)%Z ->
      exists s g,
        random_randint (- sr * max_shift_second) (sr * max_shift_second) (world_rng w)
          = (inr s, g))
  /\ ((sr * max_shift_second <= 0 \/ 2 ^ 63 < sr * max_shift_second)%Z ->
      fst (TimeShift_apply max_shift_second sr padding_mode y w) = inl ValueError).
Proof.
  split; [|split; [|split; [|split; [|split]]]].
  - intros n g Hd. pose proof (randint_in_range ok _ _ _ _ _ Hd) as Hb.
    split; [exact Hb|]. split; [lia|].
    unfold PitchShift_apply, bind. now rewrite draw_exn_run, Hd.
  - intros [Hpos Hmax].
    destruct (randint_draw ok (- max_steps) max_steps (world_rng w))
      as (n & g & Hd & _); [lia | lia | exact Hmax | eauto].
  - intros Hbad. unfold PitchShift_apply, bind. rewrite draw_exn_run.
    rewrite randint_refuses; [reflexivity | exact ok | lia].
  - intros s g Hd. pose proof (randint_in_range ok _ _ _ _ _ Hd) as Hb.
    split; [lia|]. split; [lia|].
    unfold TimeShift_apply, bind. now rewrite draw_exn_run, Hd.
  - intros [Hpos Hmax].
    destruct (randint_draw ok (- sr * max_shift_second) (sr * max_shift_second)
                (world_rng w)) as (s & g & Hd & _); [lia | lia | exact Hmax | eauto].
  - intros Hbad. unfold TimeShift_apply, bind. rewrite draw_exn_run.
    rewrite randint_refuses; [reflexivity | exact ok | lia].
Qed.

End DrawFacts.

(** The defaults [max_steps = 5], [sr = 32000], [max_shift_second = 2] with
    the stand-in source. *)
Lemma shift_draws_witness :
  ExternalsOk Demo.externals
  /\ (0 < 5 <= 2 ^ 63)%Z
  /\ (exists n g,
        random_randint (Externals := Demo.externals) (- 5) 5 7%Z = (inr n, g)
        /\ (- 5 <= n < 5)%Z /\ n <> 5%Z
        /\ PitchShift_apply (E := Demo.externals) 5 32000 0
             (mk_world (E := Demo.externals) 7%Z [mk_ndarray Float32 [1; 2; 3]%R])
           = PitchShift_with_steps (E := Demo.externals) 32000 n 0
               (mk_world (E := Demo.externals) g [mk_ndarray Float32 [1; 2; 3]%R])).
Proof.
  assert (Hb : (0 < 5 <= 2 ^ 63)%Z) by (split; [lia | discriminate]).
  split; [exact demo_externals_ok|]. split; [exact Hb|].
  destruct (shift_draws_are_half_open (E := Demo.externals) demo_externals_ok
              5 32000 2 "replace" 0
              (mk_world (E := Demo.externals) 7%Z [mk_ndarray Float32 [1; 2; 3]%R]))
    as (Hrange & Hdraw & _).
  destruct (Hdraw Hb) as (n & g & Hd).
  exists n, g. split; [exact Hd | exact (Hrange n g Hd)].
Defined.

(** ** Induction over nested transforms *)

Section TransformInduction.

Variable P : transform -> Prop.
Hypothesis HGaussian : forall a p lo hi, P (GaussianNoiseSNR a p lo hi).
Hypothesis HPink : forall a p lo hi, P (PinkNoiseSNR a p lo hi).
Hypothesis HPitch : forall a p max_steps sr, P (PitchShift a p max_steps sr).
Hypothesis HTime : forall a p mss sr mode, P (TimeShift a p mss sr mode).
Hypothesis HCompose : forall ts, Forall P ts -> P (Compose ts).
Hypothesis HOneOf : forall ts, Forall P ts -> P (OneOf ts).

Fixpoint transform_ind (t : transform) : P t :=
  match t with
  | GaussianNoiseSNR a p lo hi => HGaussian a p lo hi
  | PinkNoiseSNR a p lo hi => HPink a p lo hi
  | PitchShift a p max_steps sr => HPitch a p max_steps sr
  | TimeShift a p mss sr mode => HTime a p mss sr mode
  | Compose ts =>
      HCompose ts
        ((fix all (ts : list transform) : Forall P ts :=
            match ts with
            | [] => Forall_nil P
            | t' :: ts' => Forall_cons t' (transform_ind t') (all ts')
            end) ts)
  | OneOf ts =>
      HOneOf ts
        ((fix all (ts : list transform) : Forall P ts :=
            match ts with
            | [] => Forall_nil P
            | t' :: ts' => Forall_cons t' (transform_ind t') (all ts')
            end) ts)
  end.

End TransformInduction.

(** ** Nothing on the heap is overwritten *)

Section FrameFacts.

Context {E : Externals}.

Lemma extends_ret {A : Type} (a : A) : extends_heap (ret a).
Proof. intros w. exists []. simpl. now rewrite app_nil_r. Qed.

Lemma extends_raise {A : Type} (e : exn) : extends_heap (raise (A := A) e).
Proof. intros w. exists []. simpl. now rewrite app_nil_r. Qed.

Lemma extends_lift_exn {A : Type} (r : exn + A) : extends_heap (lift_exn r).
Proof. intros w. exists []. simpl. now rewrite app_nil_r. Qed.

Lemma extends_draw {A : Type} (f : rng -> A * rng) : extends_heap (draw f).
Proof. intros w. rewrite draw_run. exists []. simpl. now rewrite app_nil_r. Qed.

Lemma extends_draw_exn {A : Type} (f : rng -> (exn + A) * rng) :
  extends_heap (draw_exn f).
Proof. intros w. rewrite draw_exn_run. exists []. simpl. now rewrite app_nil_r. Qed.

Lemma extends_get_array (l : loc) : extends_heap (get_array l).
Proof.
  intros w. unfold get_array.
  destruct (nth_error _ _); exists []; simpl; now rewrite app_nil_r.
Qed.

Lemma extends_alloc (a : ndarray) : extends_heap (alloc a).
Proof. intros w. now exists [a]. Qed.

Lemma extends_bind {A B : Type} (m : M A) (f : A -> M B) :
  extends_heap m -> (forall a, extends_heap (f a)) -> extends_heap (bind m f).
Proof.
  intros Hm Hf w. unfold bind.
  destruct (Hm w) as (e1 & H1).
  destruct (m w) as [[e | a] w1]; simpl in H1.
  - now exists e1.
  - destruct (Hf a w1) as (e2 & H2).
    exists (e1 ++ e2). now rewrite H2, H1, app_assoc.
Qed.

Create HintDb frame.

#[local] Hint Resolve extends_ret extends_raise extends_lift_exn extends_draw
  extends_draw_exn extends_get_array extends_alloc : frame.

Lemma extends_gate always_apply p (apply : loc -> M loc) (y : loc) :
  extends_heap (apply y) -> extends_heap (AudioTransform_call always_apply p apply y).
Proof.
  intros Hap. unfold AudioTransform_call.
  destruct always_apply; [assumption|].
  apply extends_bind; auto with frame.
  intros r. destruct (Rlt_dec r p); auto with frame.
Qed.

Lemma extends_snr_apply gen lo hi (y : loc) : extends_heap (snr_apply gen lo hi y).
Proof.
  unfold snr_apply, random_uniform.
  repeat (apply extends_bind; [auto with frame | intros ?]); auto with frame.
Qed.

Lemma extends_PitchShift_apply max_steps sr (y : loc) :
  extends_heap (PitchShift_apply max_steps sr y).
Proof.
  unfold PitchShift_apply, PitchShift_with_steps.
  repeat (apply extends_bind; [auto with frame | intros ?]); auto with frame.
Qed.

(** The slice assignment of [TimeShift] writes into the array [np.roll] has
    just allocated, never into [y]. *)
Lemma extends_TimeShift_with_shift mode shift (y : loc) :
  extends_heap (TimeShift_with_shift mode shift y).
Proof.
  intros w. destruct (nth_error (world_heap w) y) as [ya|] eqn:Hy.
  - erewrite TimeShift_with_shift_run by eassumption. simpl. eauto.
  - unfold TimeShift_with_shift, np_roll, bind, get_array. rewrite Hy.
    exists []. simpl. now rewrite app_nil_r.
Qed.

Lemma extends_TimeShift_apply mss sr mode (y : loc) :
  extends_heap (TimeShift_apply mss sr mode y).
Proof.
  unfold TimeShift_apply.
  apply extends_bind; [auto with frame | intros shift].
  apply extends_TimeShift_with_shift.
Qed.

(** [OneOf.__call__] with the list access written with [nth_error]. *)
Lemma invoke_OneOf_unfold ts (y : loc) (w : world) :
  invoke (OneOf ts) y w
  = bind (draw_exn (random_choice (length ts)))
      (fun i => match nth_error ts i with
                | Some t => invoke t y
                | None => raise IndexError
                end) w.
Proof.
  simpl. apply bind_ext. intros i w'. clear w.
  revert i. induction ts as [|t0 ts IH]; intros i.
  - now destruct i.
  - destruct i as [|i]; [reflexivity | apply IH].
Qed.

Lemma invoke_extends_heap (t : transform) :
  forall y : loc, extends_heap (invoke t y).
Proof.
  induction t as [a p lo hi | a p lo hi | a p ms sr | a p mss sr mode
                 | ts IH | ts IH] using transform_ind; intros y.
  - apply extends_gate, extends_snr_apply.
  - apply extends_gate, extends_snr_apply.
  - apply extends_gate, extends_PitchShift_apply.
  - apply extends_gate, extends_TimeShift_apply.
  - revert y. induction IH as [|t ts Ht _ IHts]; intros y.
    + apply extends_ret.
    + intros w. rewrite invoke_Compose_cons.
      revert w. apply extends_bind; [apply Ht | apply IHts].
  - intros w. rewrite invoke_OneOf_unfold. revert w.
    apply extends_bind; [auto with frame | intros i].
    destruct (nth_error ts i) as [t|] eqn:Hi; [|auto with frame].
    rewrite Forall_forall in IH. apply IH.
    eapply nth_error_In; eassumption.
Qed.

(** C10.  Whatever the transform or composition and whatever the outcome
    (a result or an exception), every array that was on the heap before the
    call, the input among them, holds the same samples after it. *)
Theorem invoke_never_writes_existing_arrays (t : transform) (y : loc) (w : world)
    (l : loc) (a : ndarray) :
  nth_error (world_heap w) l = Some a ->
  nth_error (world_heap (snd (invoke t y w))) l = Some a.
Proof.
  intros Hl. destruct (invoke_extends_heap t y w) as (extra & ->).
  now apply nth_error_app_old.
Qed.

End FrameFacts.

(** With the stand-in source drawing shift 0 in ["zero"] mode, the input
    array still reads [[1, 2, 3]] after the call. *)
Lemma invoke_never_writes_witness :
  nth_error
    (world_heap (mk_world (E := Demo.externals) 64000%Z [mk_ndarray Float32 [1; 2; 3]%R]))
    0 = Some (mk_ndarray Float32 [1; 2; 3]%R)
  /\ nth_error
       (world_heap
          (snd (invoke (E := Demo.externals) (TimeShift true (1 / 2) 2 32000 "zero") 0
                  (mk_world (E := Demo.externals) 64000%Z
                     [mk_ndarray Float32 [1; 2; 3]%R]))))
       0 = Some (mk_ndarray Float32 [1; 2; 3]%R).
Proof.
  split; [reflexivity|].
  apply (invoke_never_writes_existing_arrays (E := Demo.externals)
           (TimeShift true (1 / 2) 2 32000 "zero") 0
           (mk_world (E := Demo.externals) 64000%Z [mk_ndarray Float32 [1; 2; 3]%R])
           0 (mk_ndarray Float32 [1; 2; 3]%R)).
  reflexivity.
Defined.

(** ** Length and dtype *)

Lemma zip_with_length {A B C : Type} (f : A -> B -> C) (a : list A) (b : list B) :
  length a = length b -> length (Numpy.zip_with f a b) = length a.
Proof.
  revert b. induction a as [|x a IH]; intros [|z b] H; simpl in *; try lia.
  now rewrite IH by lia.
Qed.

(** On operands of one length [a + b] is the sum position by position. *)
Lemma add_same_length (a b : list R) :
  length a = length b -> Numpy.add a b = inr (Numpy.zip_with Rplus a b).
Proof.
  intros H. unfold Numpy.add.
  destruct a as [|x [|x' a]], b as [|z [|z' b]]; simpl in *; try lia; try reflexivity.
  now rewrite (proj2 (Nat.eqb_eq _ _)) by lia.
Qed.

Section ShapeFacts.

Context {E : Externals}.

Lemma time_shifted_length mode shift (a : list R) :
  length (time_shifted mode shift a) = length a.
Proof.
  unfold time_shifted.
  destruct (String.eqb mode "zero"); [destruct (shift >? 0)%Z|];
    rewrite ?setitem_slice_length; apply roll_length.
Qed.

(** [snr_apply] step by step: the draw of [snr], then the places where
    numpy or the generator can raise, then the allocation of the result. *)
Lemma snr_apply_run gen lo hi (y : loc) (w : world) ya :
  nth_error (world_heap w) y = Some ya ->
  let u := fst (random_rand (world_rng w)) in
  let g1 := snd (random_rand (world_rng w)) in
  let snr := (lo + (hi - lo) * u)%R in
  let g2 := snd (gen (length (arr_data ya)) g1) in
  snr_apply gen lo hi y w
  = match Numpy.amax (Numpy.sqrt_sq (square_in (arr_dtype ya)) (arr_data ya)) with
    | inl e => (inl e, mk_world g1 (world_heap w))
    | inr a_signal =>
        match fst (gen (length (arr_data ya)) g1) with
        | inl e => (inl e, mk_world g2 (world_heap w))
        | inr noise =>
            match Numpy.amax (Numpy.sqrt_sq (square_in Float64) noise) with
            | inl e => (inl e, mk_world g2 (world_heap w))
            | inr a_peak =>
                match Numpy.add (arr_data ya)
                        (scaled_noise noise a_peak
                           (a_signal / Rpower 10 (snr / 20))) with
                | inl e => (inl e, mk_world g2 (world_heap w))
                | inr sum =>
                    (inr (length (world_heap w)),
                     mk_world g2 (world_heap w ++ [astype (arr_dtype ya) sum]))
                end
            end
        end
    end.
Proof.
  intros Hy u g1 snr g2.
  unfold snr_apply, random_uniform, bind, ret, lift_exn, get_array, alloc.
  rewrite draw_run. cbn [fst snd world_heap world_rng]. rewrite Hy.
  destruct (Numpy.amax (Numpy.sqrt_sq _ (arr_data ya))) as [e | a_signal];
    [reflexivity|].
  rewrite draw_exn_run. cbn [fst snd world_heap world_rng].
  fold u g1 snr g2.
  destruct (fst (gen (length (arr_data ya)) g1)) as [e | noise]; [reflexivity|].
  destruct (Numpy.amax (Numpy.sqrt_sq _ noise)) as [e | a_peak]; [reflexivity|].
  destruct (Numpy.add _ _) as [e | sum]; reflexivity.
Qed.

Lemma scaled_noise_length noise a_peak a_noise :
  length (scaled_noise noise a_peak a_noise) = length noise.
Proof. apply length_map. Qed.

Lemma randn_noise_length (ok : ExternalsOk E) n g noise :
  fst (randn_noise n g) = inr noise -> length noise = n.
Proof.
  unfold randn_noise. simpl. intros H. injection H as <-. apply randn_length.
Qed.

Lemma powerlaw_noise_length (ok : ExternalsOk E) n g noise :
  fst (powerlaw_psd_gaussian 1 n g) = inr noise -> length noise = n.
Proof.
  intros H. pose proof (powerlaw_outcome n g) as Ho.
  destruct n as [|[|n]]; rewrite H in Ho; try discriminate.
  destruct Ho as (noise' & Hn & Hlen). now injection Hn as <-.
Qed.

Lemma keeps_shape_snr_apply gen lo hi :
  (forall n g noise, fst (gen n g) = inr noise -> length noise = n) ->
  keeps_shape (snr_apply gen lo hi).
Proof.
  intros Hgen y w ya r w' Hy Hrun.
  rewrite (snr_apply_run gen lo hi y w ya Hy) in Hrun.
  destruct (Numpy.amax (Numpy.sqrt_sq _ (arr_data ya))) as [e | a_signal];
    [discriminate|].
  destruct (fst (gen _ _)) as [e | noise] eqn:Hnoise; [discriminate|].
  apply Hgen in Hnoise.
  destruct (Numpy.amax _) as [e | a_peak]; [discriminate|].
  rewrite add_same_length in Hrun by now rewrite scaled_noise_length.
  injection Hrun as <- <-. simpl.
  eexists. split; [apply nth_error_snoc|]. simpl. split; [|reflexivity].
  rewrite length_map, zip_with_length; [reflexivity|].
  now rewrite scaled_noise_length.
Qed.

Lemma keeps_shape_PitchShift_apply (ok : ExternalsOk E) max_steps sr :
  keeps_shape (PitchShift_apply max_steps sr).
Proof.
  intros y w ya r w' Hy Hrun.
  unfold PitchShift_apply, PitchShift_with_steps, bind, get_array, lift_exn, alloc
    in Hrun.
  rewrite draw_exn_run in Hrun.
  destruct (fst (random_randint _ _ _)) as [e | n]; [discriminate|].
  cbn [world_heap] in Hrun. rewrite Hy in Hrun.
  destruct (pitch_shift ya sr n) as [e | b] eqn:Hb; [discriminate|].
  injection Hrun as <- <-. simpl.
  exists b. split; [apply nth_error_snoc|].
  eapply pitch_shift_shape; eassumption.
Qed.

Lemma keeps_shape_TimeShift_apply mss sr mode :
  keeps_shape (TimeShift_apply mss sr mode).
Proof.
  intros y w ya r w' Hy Hrun.
  unfold TimeShift_apply, bind in Hrun. rewrite draw_exn_run in Hrun.
  destruct (fst (random_randint _ _ _)) as [e | shift]; [discriminate|].
  erewrite TimeShift_with_shift_run in Hrun by (simpl; eassumption).
  injection Hrun as <- <-. simpl.
  eexists. split; [apply nth_error_snoc|]. simpl.
  split; [apply time_shifted_length | reflexivity].
Qed.

(** The skipping branch returns the very reference it was given. *)
Lemma keeps_shape_gate always_apply p (apply : loc -> M loc) :
  keeps_shape apply -> keeps_shape (AudioTransform_call always_apply p apply).
Proof.
  intros Hap y w ya r w' Hy Hrun. unfold AudioTransform_call in Hrun.
  destruct always_apply; [eapply Hap; eassumption|].
  unfold bind in Hrun. rewrite draw_run in Hrun.
  destruct (Rlt_dec _ p).
  - eapply Hap; [|eassumption]. assumption.
  - injection Hrun as <- <-. simpl. eauto.
Qed.

Lemma invoke_keeps_shape (ok : ExternalsOk E) (t : transform) : keeps_shape (invoke t).
Proof.
  induction t as [a p lo hi | a p lo hi | a p ms sr | a p mss sr mode
                 | ts IH | ts IH] using transform_ind.
  - apply keeps_shape_gate, keeps_shape_snr_apply, (randn_noise_length ok).
  - apply keeps_shape_gate, keeps_shape_snr_apply, (powerlaw_noise_length ok).
  - now apply keeps_shape_gate, keeps_shape_PitchShift_apply.
  - apply keeps_shape_gate, keeps_shape_TimeShift_apply.
  - induction IH as [|t ts Ht _ IHts]; intros y w ya r w' Hy Hrun.
    + injection Hrun as <- <-. eauto.
    + rewrite invoke_Compose_cons in Hrun. unfold bind in Hrun.
      destruct (invoke t y w) as [[e | y1] w1] eqn:H1; [discriminate|].
      destruct (Ht y w ya y1 w1 Hy H1) as (ya1 & Hy1 & Hlen1 & Hdt1).
      destruct (IHts y1 w1 ya1 r w' Hy1 Hrun) as (ra & Hr & Hlen & Hdt).
      exists ra. repeat split; congruence.
  - intros y w ya r w' Hy Hrun.
    rewrite invoke_OneOf_unfold in Hrun. unfold bind in Hrun.
    rewrite draw_exn_run in Hrun.
    destruct (fst (random_choice _ _)) as [e | i]; [discriminate|].
    destruct (nth_error ts i) as [t|] eqn:Hi; [|discriminate].
    rewrite Forall_forall in IH.
    exact (IH t (nth_error_In _ _ Hi) y (mk_world _ (world_heap w)) ya r w' Hy Hrun).
Qed.

(** C2.  When a transform or composition returns, the array it returns has
    the length and the dtype of the array it was given. *)
Theorem invoke_preserves_length_and_dtype (ok : ExternalsOk E) (t : transform)
    (y : loc) (w : world) (ya : ndarray) (r : loc) (w' : world) :
  nth_error (world_heap w) y = Some ya ->
  invoke t y w = (inr r, w') ->
  exists ra,
    nth_error (world_heap w') r = Some ra
    /\ length (arr_data ra) = length (arr_data ya)
    /\ arr_dtype ra = arr_dtype ya.
Proof.
  intros Hy Hrun. eapply invoke_keeps_shape; eassumption.
Qed.

End ShapeFacts.

Lemma demo_TimeShift_replace_run :
  invoke (E := Demo.externals) (TimeShift true (1 / 2) 2 32000 "replace") 0
    (mk_world (E := Demo.externals) 64001%Z [mk_ndarray Float32 [1; 2; 3]%R])
  = (inr 1,
     mk_world (E := Demo.externals) 64002%Z
       [mk_ndarray Float32 [1; 2; 3]%R; mk_ndarray Float32 [3; 1; 2]%R]).
Proof.
  unfold invoke, AudioTransform_call.
  now erewrite TimeShift_apply_run by reflexivity.
Qed.

(** A rotation by one sample returns three [Float32] samples for three
    [Float32] samples. *)
Lemma invoke_preserves_shape_witness :
  ExternalsOk Demo.externals
  /\ nth_error
       (world_heap
          (mk_world (E := Demo.externals) 64001%Z [mk_ndarray Float32 [1; 2; 3]%R]))
       0 = Some (mk_ndarray Float32 [1; 2; 3]%R)
  /\ exists ra,
       nth_error
         (world_heap
            (mk_world (E := Demo.externals) 64002%Z
               [mk_ndarray Float32 [1; 2; 3]%R; mk_ndarray Float32 [3; 1; 2]%R]))
         1 = Some ra
       /\ length (arr_data ra) = length (arr_data (mk_ndarray Float32 [1; 2; 3]%R))
       /\ arr_dtype ra = arr_dtype (mk_ndarray Float32 [1; 2; 3]%R).
Proof.
  split; [exact demo_externals_ok|]. split; [reflexivity|].
  exact (invoke_preserves_length_and_dtype (E := Demo.externals) demo_externals_ok
           (TimeShift true (1 / 2) 2 32000 "replace") 0
           (mk_world (E := Demo.externals) 64001%Z [mk_ndarray Float32 [1; 2; 3]%R])
           (mk_ndarray Float32 [1; 2; 3]%R) 1
           (mk_world (E := Demo.externals) 64002%Z
              [mk_ndarray Float32 [1; 2; 3]%R; mk_ndarray Float32 [3; 1; 2]%R])
           eq_refl demo_TimeShift_replace_run).
Defined.

(** ** Peak amplitudes *)

Section PeakFacts.

Open Scope R_scope.















End PeakFacts.

(** ** The SNR transforms *)

Section SnrFacts.

Context {E : Externals}.

Open Scope R_scope.








End SnrFacts.




(** * Further properties of the code *)

(** ** Rotations *)

Section RollFacts.

Variable A : Type.
Implicit Types (a : list A) (s t : Z).

(** [np.roll] moves samples, it neither drops nor repeats any. *)
Lemma roll_Permutation a s : Permutation (Numpy.roll a s) a.
Proof.
  unfold Numpy.roll.
  destruct (Z.to_nat _ =? 0); [reflexivity|].
  rewrite Permutation_app_comm. now rewrite firstn_skipn.
Qed.

(** Two rotations are the rotation by the sum. *)
Lemma roll_roll a s t : Numpy.roll (Numpy.roll a s) t = Numpy.roll a (s + t).
Proof.
  apply nth_error_ext. intros i.
  destruct (lt_dec i (length a)) as [Hi | Hi].
  - assert (Ha : a <> []) by (destruct a; [simpl in Hi; lia | discriminate]).
    rewrite roll_nth_error by now rewrite roll_length.
    rewrite roll_length.
    pose proof (Z.mod_pos_bound (Z.of_nat i - t) (Z.of_nat (length a))
                  ltac:(lia)) as Hb.
    rewrite roll_nth_error by lia.
    rewrite roll_nth_error by assumption.
    f_equal. f_equal. rewrite Z2Nat.id by lia.
    rewrite Zminus_mod_idemp_l. f_equal. lia.
  - transitivity (@None A); [|symmetry];
      apply nth_error_None; rewrite !roll_length; lia.
Qed.

(** Rotating back restores the sequence. *)
Lemma roll_back a s : Numpy.roll (Numpy.roll a s) (- s) = a.
Proof.
  rewrite roll_roll, Z.add_opp_diag_r. apply roll_zero.
Qed.

End RollFacts.

Section TimeShiftMore.

Context {E : Externals}.

(** X1.  In ["replace"] mode the returned array holds the samples of the
    input in another order: the multiset of values is the same. *)
Theorem TimeShift_replace_permutes_samples (shift : Z) (y : loc) (w : world)
    (ya : ndarray) :
  nth_error (world_heap w) y = Some ya ->
  exists samples,
    TimeShift_with_shift "replace" shift y w
    = (inr (length (world_heap w)),
       mk_world (world_rng w)
         (world_heap w ++ [mk_ndarray (arr_dtype ya) samples]))
    /\ Permutation samples (arr_data ya).
Proof.
  intros Hy. exists (Numpy.roll (arr_data ya) shift). split.
  - now erewrite TimeShift_with_shift_run by eassumption.
  - apply roll_Permutation.
Qed.

(** X2.  Two ["replace"] shifts in a row, the second on the result of the
    first, leave the rotation by [s] and then the rotation by [s + t] of the
    input; shifting back by [- s] restores the samples. *)
Theorem TimeShift_replace_shifts_add (s t : Z) (y : loc) (w : world) (ya : ndarray) :
  nth_error (world_heap w) y = Some ya ->
  bind (TimeShift_with_shift "replace" s y) (TimeShift_with_shift "replace" t) w
  = (inr (S (length (world_heap w))),
     mk_world (world_rng w)
       (world_heap w
          ++ [mk_ndarray (arr_dtype ya) (Numpy.roll (arr_data ya) s);
              mk_ndarray (arr_dtype ya) (Numpy.roll (arr_data ya) (s + t))]))
  /\ Numpy.roll (Numpy.roll (arr_data ya) s) (- s) = arr_data ya.
Proof.
  intros Hy. split; [|apply roll_back].
  unfold bind. erewrite TimeShift_with_shift_run by eassumption.
  erewrite TimeShift_with_shift_run by (simpl; apply nth_error_snoc).
  cbn [arr_data arr_dtype world_heap world_rng].
  rewrite !time_shifted_replace, roll_roll, length_app, <- app_assoc.
  cbn [length app]. now rewrite Nat.add_1_r.
Qed.

Lemma time_shifted_zero_long_shift (shift : Z) (a : list R) :
  (Z.of_nat (length a) <= Z.abs shift)%Z ->
  time_shifted "zero" shift a = repeat 0%R (length a).
Proof.
  intros Hlong. unfold time_shifted. simpl String.eqb. cbv iota.
  unfold Numpy.setitem_slice, Numpy.slice_indices, Numpy.slice_bound.
  rewrite !roll_length.
  destruct (Z.gtb_spec shift 0) as [Hpos | Hneg].
  - destruct (Z.ltb_spec shift 0); [lia|].
    rewrite <- (roll_length _ a shift) at 2.
    apply fill_range_all. rewrite roll_length. lia.
  - replace (Z.to_nat _) with 0.
    + rewrite <- (roll_length _ a shift) at 2.
      apply fill_range_all. rewrite roll_length. lia.
    + destruct (Z.ltb_spec shift 0); lia.
Qed.

(** X11.  In ["zero"] mode a shift at least as long as the waveform, in
    either direction, leaves nothing of it: the returned array is all
    zeros. *)
Theorem TimeShift_zero_long_shift_silences (shift : Z) (y : loc) (w : world)
    (ya : ndarray) :
  (Z.of_nat (length (arr_data ya)) <= Z.abs shift)%Z ->
  nth_error (world_heap w) y = Some ya ->
  TimeShift_with_shift "zero" shift y w
  = (inr (length (world_heap w)),
     mk_world (world_rng w)
       (world_heap w
          ++ [mk_ndarray (arr_dtype ya) (repeat 0%R (length (arr_data ya)))])).
Proof.
  intros Hlong Hy. erewrite TimeShift_with_shift_run by eassumption.
  now rewrite time_shifted_zero_long_shift.
Qed.

End TimeShiftMore.

Lemma TimeShift_replace_permutes_witness :
  nth_error
    (world_heap (mk_world (E := Demo.externals) 0%Z [mk_ndarray Float32 [1; 2; 3]%R]))
    0 = Some (mk_ndarray Float32 [1; 2; 3]%R)
  /\ exists samples,
       TimeShift_with_shift (E := Demo.externals) "replace" 1 0
         (mk_world (E := Demo.externals) 0%Z [mk_ndarray Float32 [1; 2; 3]%R])
       = (inr 1,
          mk_world (E := Demo.externals) 0%Z
            [mk_ndarray Float32 [1; 2; 3]%R; mk_ndarray Float32 samples])
       /\ Permutation samples [1; 2; 3]%R.
Proof.
  split; [reflexivity|].
  exact (TimeShift_replace_permutes_samples (E := Demo.externals) 1 0
           (mk_world (E := Demo.externals) 0%Z [mk_ndarray Float32 [1; 2; 3]%R])
           (mk_ndarray Float32 [1; 2; 3]%R) eq_refl).
Defined.

Lemma TimeShift_replace_shifts_add_witness :
  nth_error
    (world_heap (mk_world (E := Demo.externals) 0%Z [mk_ndarray Float32 [1; 2; 3]%R]))
    0 = Some (mk_ndarray Float32 [1; 2; 3]%R)
  /\ bind (TimeShift_with_shift (E := Demo.externals) "replace" 1 0)
       (TimeShift_with_shift "replace" 1)
       (mk_world (E := Demo.externals) 0%Z [mk_ndarray Float32 [1; 2; 3]%R])
     = (inr 2,
        mk_world (E := Demo.externals) 0%Z
          [mk_ndarray Float32 [1; 2; 3]%R; mk_ndarray Float32 [3; 1; 2]%R;
           mk_ndarray Float32 [2; 3; 1]%R]).
Proof.
  split; [reflexivity|].
  exact (proj1 (TimeShift_replace_shifts_add (E := Demo.externals) 1 1 0
                  (mk_world (E := Demo.externals) 0%Z [mk_ndarray Float32 [1; 2; 3]%R])
                  (mk_ndarray Float32 [1; 2; 3]%R) eq_refl)).
Defined.

Lemma TimeShift_zero_long_shift_witness :
  (Z.of_nat (length (arr_data (mk_ndarray Float32 [1; 2; 3]%R))) <= Z.abs (- 5))%Z
  /\ nth_error
       (world_heap (mk_world (E := Demo.externals) 0%Z [mk_ndarray Float32 [1; 2; 3]%R]))
       0 = Some (mk_ndarray Float32 [1; 2; 3]%R)
  /\ TimeShift_with_shift (E := Demo.externals) "zero" (- 5) 0
       (mk_world (E := Demo.externals) 0%Z [mk_ndarray Float32 [1; 2; 3]%R])
     = (inr 1,
        mk_world (E := Demo.externals) 0%Z
          [mk_ndarray Float32 [1; 2; 3]%R; mk_ndarray Float32 [0; 0; 0]%R]).
Proof.
  split; [simpl; lia|]. split; [reflexivity|].
  exact (TimeShift_zero_long_shift_silences (E := Demo.externals) (- 5) 0
           (mk_world (E := Demo.externals) 0%Z [mk_ndarray Float32 [1; 2; 3]%R])
           (mk_ndarray Float32 [1; 2; 3]%R) ltac:(simpl; lia) eq_refl).
Defined.

(** ** The gate outside the unit interval *)

Section GateMore.

Context {E : Externals}.

Lemma gate_skips_when_p_nonpositive (ok : ExternalsOk E) (p : R)
    (apply : loc -> M loc) (y : loc) (w : world) :
  (p <= 0)%R ->
  AudioTransform_call false p apply y w
  = (inr y, mk_world (snd (random_rand (world_rng w))) (world_heap w)).
Proof.
  intros Hp. pose proof (rand_range (world_rng w)) as Hr.
  unfold AudioTransform_call, bind. rewrite draw_run.
  destruct (Rlt_dec _ p); [lra | reflexivity].
Qed.

(** X6.  A [p] of 1 or more makes the gate run [apply] on every call (after
    its one draw), and a [p] of 0 or less makes it return the reference it
    was given on every call: values outside [0, 1] behave as 1 and 0. *)
Theorem gate_saturates_outside_unit_interval (ok : ExternalsOk E) (p : R)
    (apply : loc -> M loc) (y : loc) (w : world) :
  ((1 <= p)%R ->
   AudioTransform_call false p apply y w
   = apply y (mk_world (snd (random_rand (world_rng w))) (world_heap w)))
  /\ ((p <= 0)%R ->
      AudioTransform_call false p apply y w
      = (inr y, mk_world (snd (random_rand (world_rng w))) (world_heap w))).
Proof.
  pose proof (rand_range (world_rng w)) as Hr.
  unfold AudioTransform_call, bind. rewrite draw_run.
  split; intros Hp; destruct (Rlt_dec _ p); try reflexivity; lra.
Qed.

End GateMore.

Lemma gate_saturates_witness :
  ExternalsOk Demo.externals
  /\ AudioTransform_call (E := Demo.externals) false 3 (fun y => raise IndexError) 0
       (mk_world (E := Demo.externals) 3%Z [])
     = (inl IndexError, mk_world (E := Demo.externals) 4%Z [])
  /\ AudioTransform_call (E := Demo.externals) false (- 1) (fun y => raise IndexError) 0
       (mk_world (E := Demo.externals) 3%Z [])
     = (inr 0, mk_world (E := Demo.externals) 4%Z []).
Proof.
  split; [exact demo_externals_ok|].
  split.
  - exact (proj1 (gate_saturates_outside_unit_interval (E := Demo.externals)
                    demo_externals_ok 3 (fun y => raise IndexError) 0
                    (mk_world (E := Demo.externals) 3%Z [])) ltac:(lra)).
  - exact (proj2 (gate_saturates_outside_unit_interval (E := Demo.externals)
                    demo_externals_ok (- 1) (fun y => raise IndexError) 0
                    (mk_world (E := Demo.externals) 3%Z [])) ltac:(lra)).
Defined.

(** ** More on compositions *)

Section CompositionMore.

Context {E : Externals}.

Lemma invoke_Compose_app ts1 ts2 (y : loc) (w : world) :
  invoke (Compose (ts1 ++ ts2)) y w
  = bind (invoke (Compose ts1) y) (invoke (Compose ts2)) w.
Proof.
  revert y w. induction ts1 as [|t ts1 IH]; intros y w.
  - reflexivity.
  - rewrite <- app_comm_cons, invoke_Compose_cons.
    change (invoke (Compose (t :: ts1)) y)
      with (bind (invoke t y) (invoke (Compose ts1))).
    rewrite bind_assoc. apply bind_ext. intros y1 w1. apply IH.
Qed.

Lemma invoke_Compose_single t (y : loc) (w : world) :
  invoke (Compose [t]) y w = invoke t y w.
Proof.
  rewrite invoke_Compose_cons. unfold bind.
  destruct (invoke t y w) as [[e | r] w1]; reflexivity.
Qed.

(** X7.  A [Compose] of a concatenated list is the [Compose] of the first
    part followed by the [Compose] of the second on its result; nesting two
    [Compose] objects in a [Compose] is the same as one [Compose] of all the
    children; and a [Compose] of one child is that child. *)
Theorem Compose_flattens ts1 ts2 t (y : loc) (w : world) :
  invoke (Compose (ts1 ++ ts2)) y w
  = bind (invoke (Compose ts1) y) (invoke (Compose ts2)) w
  /\ invoke (Compose [Compose ts1; Compose ts2]) y w
     = invoke (Compose (ts1 ++ ts2)) y w
  /\ invoke (Compose [t]) y w = invoke t y w.
Proof.
  split; [apply invoke_Compose_app|]. split; [|apply invoke_Compose_single].
  rewrite invoke_Compose_app, invoke_Compose_cons.
  apply bind_ext. intros y1 w1. apply invoke_Compose_single.
Qed.

(** X8.  When the children before [t] return and [t] raises, the [Compose]
    raises the same exception with the state [t] left: the children after
    [t] are not called. *)
Theorem Compose_stops_at_first_exception before t after (y : loc) (w : world)
    (y1 : loc) (w1 : world) (e : exn) (w2 : world) :
  invoke (Compose before) y w = (inr y1, w1) ->
  invoke t y1 w1 = (inl e, w2) ->
  invoke (Compose (before ++ t :: after)) y w = (inl e, w2).
Proof.
  intros Hb Ht. rewrite invoke_Compose_app. unfold bind. rewrite Hb.
  rewrite invoke_Compose_cons. unfold bind. now rewrite Ht.
Qed.

(** X5.  [OneOf([])] raises [ValueError] ([np.random.choice(0)]) and leaves
    the heap as it found it. *)
Theorem OneOf_of_nothing_raises (ok : ExternalsOk E) (y : loc) (w : world) :
  invoke (OneOf []) y w
  = (inl ValueError,
     mk_world (snd (random_choice 0 (world_rng w))) (world_heap w)).
Proof.
  rewrite invoke_OneOf_unfold. unfold bind. rewrite draw_exn_run.
  cbn [length]. now rewrite (choice_range 0 (world_rng w)).
Qed.

End CompositionMore.

(** [PitchShift(max_steps = 0)] raises in [randint(0, 0)]; the [TimeShift]
    listed after it is not reached. *)
Lemma Compose_stops_witness :
  invoke (E := Demo.externals) (Compose []) 0
    (mk_world (E := Demo.externals) 0%Z [mk_ndarray Float32 [1; 2; 3]%R])
  = (inr 0, mk_world (E := Demo.externals) 0%Z [mk_ndarray Float32 [1; 2; 3]%R])
  /\ invoke (E := Demo.externals) (PitchShift true 1 0 32000) 0
       (mk_world (E := Demo.externals) 0%Z [mk_ndarray Float32 [1; 2; 3]%R])
     = (inl ValueError,
        mk_world (E := Demo.externals) 0%Z [mk_ndarray Float32 [1; 2; 3]%R])
  /\ invoke (E := Demo.externals)
       (Compose ([] ++ PitchShift true 1 0 32000 :: [TimeShift true 1 2 32000 "zero"])) 0
       (mk_world (E := Demo.externals) 0%Z [mk_ndarray Float32 [1; 2; 3]%R])
     = (inl ValueError,
        mk_world (E := Demo.externals) 0%Z [mk_ndarray Float32 [1; 2; 3]%R]).
Proof.
  split; [reflexivity|]. split; [reflexivity|].
  exact (Compose_stops_at_first_exception (E := Demo.externals) []
           (PitchShift true 1 0 32000) [TimeShift true 1 2 32000 "zero"] 0
           (mk_world (E := Demo.externals) 0%Z [mk_ndarray Float32 [1; 2; 3]%R]) 0
           (mk_world (E := Demo.externals) 0%Z [mk_ndarray Float32 [1; 2; 3]%R])
           ValueError
           (mk_world (E := Demo.externals) 0%Z [mk_ndarray Float32 [1; 2; 3]%R])
           eq_refl eq_refl).
Defined.

Lemma OneOf_of_nothing_witness :
  ExternalsOk Demo.externals
  /\ invoke (E := Demo.externals) (OneOf []) 0
       (mk_world (E := Demo.externals) 0%Z [mk_ndarray Float32 [1; 2; 3]%R])
     = (inl ValueError,
        mk_world (E := Demo.externals) 0%Z [mk_ndarray Float32 [1; 2; 3]%R]).
Proof.
  split; [exact demo_externals_ok|].
  exact (OneOf_of_nothing_raises (E := Demo.externals) demo_externals_ok 0
           (mk_world (E := Demo.externals) 0%Z [mk_ndarray Float32 [1; 2; 3]%R])).
Defined.

(** ** Pipelines that never apply *)

Section NeverApplies.

Context {E : Externals}.

Lemma never_applies_Compose ts :
  never_applies (Compose ts) <-> Forall never_applies ts.
Proof.
  induction ts as [|t ts IH].
  - split; [constructor | exact (fun _ => I)].
  - split.
    + intros [Ht Hts]. constructor; [exact Ht | now apply IH].
    + intros H. inversion H as [|? ? Ht Hts]; subst.
      split; [exact Ht | now apply IH].
Qed.

Lemma never_applies_OneOf ts :
  never_applies (OneOf ts) <-> ts <> [] /\ Forall never_applies ts.
Proof.
  split; intros [Hne H]; (split; [exact Hne|]);
    now apply (never_applies_Compose ts).
Qed.

(** X9.  A pipeline in which every leaf has [always_apply = False] and
    [p <= 0] (and every [OneOf] has a child) returns the very reference it
    was given and allocates nothing; only the random state moves. *)
Theorem disabled_pipeline_returns_its_input (ok : ExternalsOk E) (t : transform) :
  never_applies t ->
  forall (y : loc) (w : world),
    exists g, invoke t y w = (inr y, mk_world g (world_heap w)).
Proof.
  induction t as [a p lo hi | a p lo hi | a p ms sr | a p mss sr mode
                 | ts IH | ts IH] using transform_ind.
  1-4: intros [-> Hp] y w; eexists; apply (gate_skips_when_p_nonpositive ok);
       exact Hp.
  - intros Hn. apply never_applies_Compose in Hn.
    induction IH as [|t ts Ht _ IHts]; intros y w.
    + exists (world_rng w). now destruct w.
    + inversion Hn as [|? ? Hnt Hnts]; subst.
      destruct (Ht Hnt y w) as (g1 & H1).
      destruct (IHts Hnts y (mk_world g1 (world_heap w))) as (g2 & H2).
      exists g2. rewrite invoke_Compose_cons. unfold bind. now rewrite H1.
  - intros Hn y w. apply never_applies_OneOf in Hn. destruct Hn as [Hne Hall].
    rewrite Forall_forall in IH, Hall.
    pose proof (choice_range (length ts) (world_rng w)) as Hc.
    destruct (length ts) as [|n] eqn:Hlen.
    { destruct ts; [congruence | discriminate]. }
    destruct Hc as (i & Hi & Hlt).
    destruct (nth_error ts i) as [t|] eqn:Ht.
    2: { apply nth_error_None in Ht. lia. }
    pose proof (nth_error_In _ _ Ht) as Hin.
    destruct (IH t Hin (Hall t Hin) y
                (mk_world (snd (random_choice (S n) (world_rng w))) (world_heap w)))
      as (g' & Hg).
    exists g'. rewrite invoke_OneOf_unfold. unfold bind.
    rewrite draw_exn_run, Hlen, Hi, Ht. exact Hg.
Qed.

End NeverApplies.

Lemma disabled_pipeline_witness :
  ExternalsOk Demo.externals
  /\ never_applies
       (Compose [TimeShift false 0 2 32000 "zero";
                 OneOf [PitchShift false (- 1) 5 32000]])
  /\ exists g,
       invoke (E := Demo.externals)
         (Compose [TimeShift false 0 2 32000 "zero";
                   OneOf [PitchShift false (- 1) 5 32000]]) 0
         (mk_world (E := Demo.externals) 0%Z [mk_ndarray Float32 [1; 2; 3]%R])
       = (inr 0, mk_world (E := Demo.externals) g [mk_ndarray Float32 [1; 2; 3]%R]).
Proof.
  assert (Hn : never_applies
                 (Compose [TimeShift false 0 2 32000 "zero";
                           OneOf [PitchShift false (- 1) 5 32000]])).
  { simpl. repeat split; try lra. discriminate. }
  split; [exact demo_externals_ok|]. split; [exact Hn|].
  exact (disabled_pipeline_returns_its_input (E := Demo.externals) demo_externals_ok
           _ Hn 0
           (mk_world (E := Demo.externals) 0%Z [mk_ndarray Float32 [1; 2; 3]%R])).
Defined.

(** ** Which reference comes back *)

Section ReferenceFacts.

Context {E : Externals}.

Lemma snr_apply_bad_reference gen lo hi (y : loc) (w : world) :
  nth_error (world_heap w) y = None ->
  fst (snr_apply gen lo hi y w) = inl BadReference.
Proof.
  intros Hy. unfold snr_apply, random_uniform, bind, ret, get_array.
  rewrite draw_run. cbn [fst snd world_heap]. now rewrite Hy.
Qed.

Lemma allocates_snr_apply gen lo hi : allocates_result (snr_apply gen lo hi).
Proof.
  intros y w r w' Hrun.
  destruct (nth_error (world_heap w) y) as [ya|] eqn:Hy.
  - rewrite (snr_apply_run gen lo hi y w ya Hy) in Hrun.
    destruct (Numpy.amax (Numpy.sqrt_sq _ (arr_data ya))); [discriminate|].
    destruct (fst (gen _ _)); [discriminate|].
    destruct (Numpy.amax _); [discriminate|].
    destruct (Numpy.add _ _); [discriminate|].
    injection Hrun as <- <-. simpl. eauto.
  - pose proof (snr_apply_bad_reference gen lo hi y w Hy) as Hbad.
    rewrite Hrun in Hbad. discriminate.
Qed.

Lemma allocates_PitchShift_apply max_steps sr :
  allocates_result (PitchShift_apply max_steps sr).
Proof.
  intros y w r w' Hrun.
  unfold PitchShift_apply, PitchShift_with_steps, bind, get_array, lift_exn, alloc
    in Hrun.
  rewrite draw_exn_run in Hrun.
  destruct (fst (random_randint _ _ _)); [discriminate|].
  cbn [world_heap] in Hrun.
  destruct (nth_error (world_heap w) y) as [ya|]; [|discriminate].
  destruct (pitch_shift ya sr z); [discriminate|].
  injection Hrun as <- <-. simpl. eauto.
Qed.

Lemma allocates_TimeShift_apply mss sr mode :
  allocates_result (TimeShift_apply mss sr mode).
Proof.
  intros y w r w' Hrun.
  unfold TimeShift_apply, bind in Hrun. rewrite draw_exn_run in Hrun.
  destruct (fst (random_randint _ _ _)) as [e | shift]; [discriminate|].
  destruct (nth_error (world_heap w) y) as [ya|] eqn:Hy.
  - erewrite TimeShift_with_shift_run in Hrun by (simpl; eassumption).
    injection Hrun as <- <-. simpl. eauto.
  - unfold TimeShift_with_shift, np_roll, bind, get_array in Hrun.
    cbn [world_heap] in Hrun. rewrite Hy in Hrun. discriminate.
Qed.

Lemma input_or_fresh_gate always_apply p (apply : loc -> M loc) :
  allocates_result apply ->
  input_or_fresh (AudioTransform_call always_apply p apply).
Proof.
  intros Hap y w r w' Hrun.
  assert (Hfresh : forall w0, apply y w0 = (inr r, w') ->
                   world_heap w0 = world_heap w ->
                   length (world_heap w) <= r < length (world_heap w')).
  { intros w0 H0 Hh. destruct (Hap y w0 r w' H0) as (-> & a & ->).
    rewrite Hh, length_app. simpl. lia. }
  unfold AudioTransform_call in Hrun.
  destruct always_apply; [right; now apply (Hfresh w)|].
  unfold bind in Hrun. rewrite draw_run in Hrun.
  destruct (Rlt_dec _ p).
  - right. eapply Hfresh; [eassumption | reflexivity].
  - injection Hrun as <- _. now left.
Qed.

Lemma heap_only_grows (t : transform) (y : loc) (w : world) r w' :
  invoke t y w = (inr r, w') -> length (world_heap w) <= length (world_heap w').
Proof.
  intros Hrun. destruct (invoke_extends_heap t y w) as (extra & Hext).
  rewrite Hrun in Hext. simpl in Hext. rewrite Hext, length_app. lia.
Qed.

Lemma invoke_input_or_fresh (t : transform) : input_or_fresh (invoke t).
Proof.
  induction t as [a p lo hi | a p lo hi | a p ms sr | a p mss sr mode
                 | ts IH | ts IH] using transform_ind.
  - apply input_or_fresh_gate, allocates_snr_apply.
  - apply input_or_fresh_gate, allocates_snr_apply.
  - apply input_or_fresh_gate, allocates_PitchShift_apply.
  - apply input_or_fresh_gate, allocates_TimeShift_apply.
  - induction IH as [|t ts Ht _ IHts]; intros y w r w' Hrun.
    + injection Hrun as <- _. now left.
    + rewrite invoke_Compose_cons in Hrun. unfold bind in Hrun.
      destruct (invoke t y w) as [[e | y1] w1] eqn:H1; [discriminate|].
      pose proof (heap_only_grows t y w y1 w1 H1).
      pose proof (heap_only_grows (Compose ts) y1 w1 r w' Hrun).
      destruct (Ht y w y1 w1 H1) as [-> | Hy1];
        destruct (IHts _ _ _ _ Hrun) as [-> | Hr]; try (now left); right; lia.
  - intros y w r w' Hrun.
    rewrite invoke_OneOf_unfold in Hrun. unfold bind in Hrun.
    rewrite draw_exn_run in Hrun.
    destruct (fst (random_choice _ _)) as [e | i]; [discriminate|].
    destruct (nth_error ts i) as [t|] eqn:Hi; [|discriminate].
    rewrite Forall_forall in IH.
    exact (IH t (nth_error_In _ _ Hi) y (mk_world _ (world_heap w)) r w' Hrun).
Qed.

(** X10.  The reference a transform or composition returns is either the
    one it was given or that of an array allocated during the call: it is
    never another array that existed before. *)
Theorem invoke_returns_input_or_new_array (t : transform) (y : loc) (w : world)
    (r : loc) (w' : world) :
  invoke t y w = (inr r, w') ->
  r = y \/ length (world_heap w) <= r < length (world_heap w').
Proof.
  apply invoke_input_or_fresh.
Qed.

End ReferenceFacts.

Lemma invoke_returns_input_or_new_witness :
  invoke (E := Demo.externals) (TimeShift true (1 / 2) 2 32000 "replace") 0
    (mk_world (E := Demo.externals) 64001%Z [mk_ndarray Float32 [1; 2; 3]%R])
  = (inr 1,
     mk_world (E := Demo.externals) 64002%Z
       [mk_ndarray Float32 [1; 2; 3]%R; mk_ndarray Float32 [3; 1; 2]%R])
  /\ (1 = 0
      \/ length (world_heap (mk_world (E := Demo.externals) 64001%Z
                               [mk_ndarray Float32 [1; 2; 3]%R]))
         <= 1
         < length (world_heap (mk_world (E := Demo.externals) 64002%Z
                                 [mk_ndarray Float32 [1; 2; 3]%R;
                                  mk_ndarray Float32 [3; 1; 2]%R]))).
Proof.
  split; [exact demo_TimeShift_replace_run|].
  exact (invoke_returns_input_or_new_array (E := Demo.externals) _ _ _ _ _
           demo_TimeShift_replace_run).
Defined.

(** ** The SNR transforms at the edges *)

Section SnrMore.

Context {E : Externals}.

Open Scope R_scope.






End SnrMore.



(** ** How loud the added noise is *)

Section SnrBounds.

Context {E : Externals}.

Open Scope R_scope.







End SnrBounds.



(** ** One child, and shifts modulo the length *)

Section LastFacts.

Context {E : Externals}.

(** X14.  [OneOf([t])] still draws from the random source and then calls
    [t], always. *)
Theorem OneOf_of_one_child_calls_it (ok : ExternalsOk E) (t : transform)
    (y : loc) (w : world) :
  invoke (OneOf [t]) y w
  = invoke t y (mk_world (snd (random_choice 1 (world_rng w))) (world_heap w)).
Proof.
  pose proof (choice_range 1 (world_rng w)) as (i & Hi & Hlt).
  rewrite invoke_OneOf_unfold. unfold bind. rewrite draw_exn_run.
  cbn [length]. rewrite Hi.
  assert (i = 0) as -> by lia. reflexivity.
Qed.

Lemma roll_periodic {A : Type} (a : list A) (s k : Z) :
  Numpy.roll a (s + k * Z.of_nat (length a)) = Numpy.roll a s.
Proof.
  unfold Numpy.roll.
  destruct (length a =? 0) eqn:Hn.
  - now rewrite !Z.mod_1_r.
  - now rewrite Z_mod_plus_full.
Qed.

(** X15.  In ["replace"] mode shifts that differ by a multiple of the
    length of the waveform give the same samples; in particular a shift
    that is a multiple of the length returns a copy of the input. *)
Theorem TimeShift_replace_shift_modulo_length (s k : Z) (y : loc) (w : world)
    (ya : ndarray) :
  nth_error (world_heap w) y = Some ya ->
  TimeShift_with_shift "replace" (s + k * Z.of_nat (length (arr_data ya))) y w
  = TimeShift_with_shift "replace" s y w
  /\ TimeShift_with_shift "replace" (k * Z.of_nat (length (arr_data ya))) y w
     = (inr (length (world_heap w)),
        mk_world (world_rng w)
          (world_heap w ++ [mk_ndarray (arr_dtype ya) (arr_data ya)])).
Proof.
  intros Hy. rewrite !(TimeShift_with_shift_run _ _ _ _ _ Hy).
  rewrite !time_shifted_replace. split.
  - now rewrite roll_periodic.
  - replace (k * Z.of_nat (length (arr_data ya)))%Z
      with (0 + k * Z.of_nat (length (arr_data ya)))%Z by lia.
    now rewrite roll_periodic, roll_zero.
Qed.

End LastFacts.

Lemma OneOf_of_one_child_witness :
  ExternalsOk Demo.externals
  /\ invoke (E := Demo.externals) (OneOf [TimeShift true 1 2 32000 "replace"]) 0
       (mk_world (E := Demo.externals) 64000%Z [mk_ndarray Float32 [1; 2; 3]%R])
     = invoke (E := Demo.externals) (TimeShift true 1 2 32000 "replace") 0
         (mk_world (E := Demo.externals) 64001%Z [mk_ndarray Float32 [1; 2; 3]%R]).
Proof.
  split; [exact demo_externals_ok|].
  exact (OneOf_of_one_child_calls_it (E := Demo.externals) demo_externals_ok
           (TimeShift true 1 2 32000 "replace") 0
           (mk_world (E := Demo.externals) 64000%Z [mk_ndarray Float32 [1; 2; 3]%R])).
Defined.

Lemma TimeShift_replace_modulo_witness :
  nth_error
    (world_heap (mk_world (E := Demo.externals) 0%Z [mk_ndarray Float32 [1; 2; 3]%R]))
    0 = Some (mk_ndarray Float32 [1; 2; 3]%R)
  /\ TimeShift_with_shift (E := Demo.externals) "replace" 6 0
       (mk_world (E := Demo.externals) 0%Z [mk_ndarray Float32 [1; 2; 3]%R])
     = (inr 1,
        mk_world (E := Demo.externals) 0%Z
          [mk_ndarray Float32 [1; 2; 3]%R; mk_ndarray Float32 [1; 2; 3]%R]).
Proof.
  split; [reflexivity|].
  exact (proj2 (TimeShift_replace_shift_modulo_length (E := Demo.externals) 0 2 0
                  (mk_world (E := Demo.externals) 0%Z [mk_ndarray Float32 [1; 2; 3]%R])
                  (mk_ndarray Float32 [1; 2; 3]%R) eq_refl)).
Defined.
